(** * Subtitle timing and layout engine of the YouTube Shorts pipeline

    A shallow embedding of the pure parts of [utils/video_creator.py]
    (word grouping, overlap resolution, text wrapping, background framing)
    and of [ScriptGenerator.is_fact_duplicate] in
    [utils/script_generator.py], with the properties the design document
    states about them.

    Conventions of the embedding.
    - A Python [float] holding a time in seconds is an exact rational ([Q]);
      rounding, infinities and NaN are outside the model.  Numeric equality
      ([==] on floats) is [Qeq]; the decimal constants of the source
      ([0.1], [0.5], [1.0], [3.0], [0.7]) are the rationals they denote.
    - A Python [str] is a list of characters ([list ascii]), a character
      being a code point below 256.
    - A Python [dict] with a fixed set of keys is a record; the fact store,
      keyed by topic, is a [gmap]; a Python [set] of words is a [gset].
    - A Python [list] built by [append] is a list extended on the right. *)

From Stdlib Require Import Ascii String QArith Qminmax Lqa.
From stdpp Require Import gmap strings list.
From Equations Require Import Equations.

Open Scope Q_scope.

Abbreviation str := (list ascii).

(** ** Python builtins used by the source *)

Module Py.

(** [b > a] on floats. *)
Definition gt (b a : Q) : bool := negb (Qle_bool b a).

(** [a < b] and [a <= b] on floats. *)
Definition lt (a b : Q) : bool := gt b a.
Definition le (a b : Q) : bool := Qle_bool a b.

(** [max(a, b)]: CPython keeps the first argument unless a later one
    compares greater. *)
Definition max (a b : Q) : Q := if gt b a then b else a.

(** [min(a, b)]: the first argument unless a later one compares less. *)
Definition min (a b : Q) : Q := if gt a b then b else a.

(** [c.isspace()] for a code point below 256: the characters [str.strip()]
    and [str.split()] treat as whitespace (U+0009 to U+000D, U+001C to
    U+0020, U+0085 and U+00A0). *)
Definition isspace (c : ascii) : bool :=
  let n := nat_of_ascii c in
  (Nat.leb 9 n && Nat.leb n 13) || (Nat.leb 28 n && Nat.leb n 32)
  || Nat.eqb n 133 || Nat.eqb n 160.

(** [s.lstrip()], [s.rstrip()] and [s.strip()]. *)
Fixpoint lstrip (s : str) : str :=
  match s with
  | c :: s' => if isspace c then lstrip s' else s
  | [] => []
  end.
Definition rstrip (s : str) : str := rev (lstrip (rev s)).
Definition strip (s : str) : str := rstrip (lstrip s).

(** [s.endswith(suffix)] and [s.endswith((suffix1, suffix2, ...))]. *)
Definition endswith (s suffix : str) : bool :=
  bool_decide (suffix `suffix_of` s).
Definition endswith_any (s : str) (suffixes : list str) : bool :=
  existsb (endswith s) suffixes.

(** [s.lower()] for code points below 256: the letters [A-Z] and the
    Latin-1 capitals U+00C0 to U+00DE (U+00D7, the multiplication sign,
    apart) move 32 places up. *)
Definition lower_char (c : ascii) : ascii :=
  let n := nat_of_ascii c in
  if (Nat.leb 65 n && Nat.leb n 90)
     || (Nat.leb 192 n && Nat.leb n 222 && negb (Nat.eqb n 215))
  then ascii_of_nat (n + 32) else c.
Definition lower (s : str) : str := map lower_char s.

(** [s.split()]: the maximal runs of non-whitespace characters, in order.
    [cur] is the run being read. *)
Fixpoint split_go (cur : str) (s : str) : list str :=
  match s with
  | [] => match cur with [] => [] | _ => [cur] end
  | c :: s' =>
      if isspace c then
        match cur with
        | [] => split_go [] s'
        | _ => cur :: split_go [] s'
        end
      else split_go (cur ++ [c]) s'
  end.
Definition split (s : str) : list str := split_go [] s.

(** [s.split(sep)] for a one-character separator: the pieces between the
    occurrences of [sep], empty ones included. *)
Fixpoint split_on_go (sep : ascii) (cur : str) (s : str) : list str :=
  match s with
  | [] => [cur]
  | c :: s' =>
      if bool_decide (c = sep) then cur :: split_on_go sep [] s'
      else split_on_go sep (cur ++ [c]) s'
  end.
Definition split_on (sep : ascii) (s : str) : list str :=
  split_on_go sep [] s.

(** [sep.join(pieces)]. *)
Fixpoint join (sep : str) (pieces : list str) : str :=
  match pieces with
  | [] => []
  | [piece] => piece
  | piece :: rest => piece ++ sep ++ join sep rest
  end.

(** [a / b] on two [int]s: the quotient as a float, or [ZeroDivisionError]
    ([None]). *)
Definition truediv (a b : nat) : option Q :=
  match b with
  | O => None
  | _ => Some (inject_Z (Z.of_nat a) / inject_Z (Z.of_nat b))
  end.

(** [a / b] on two [int]s that may be negative. *)
Definition truediv_int (a b : Z) : option Q :=
  if (b =? 0)%Z then None else Some (inject_Z a / inject_Z b).

End Py.

(** ** utils/video_creator.py: the overlap resolver *)

(** The attributes [__init__] sets for the timing controls. *)
Definition min_gap_between_text : Q := 0.1.
Definition min_display_time : Q := 1.0.
Definition max_display_time : Q := 3.0.

(** An entry of [text_segments]: [{'text', 'start', 'end'}]. *)
Record RawCue := mkRawCue {
  seg_text : str;
  seg_start : Q;
  seg_end : Q
}.

(** An entry of [fixed_segments]: [{'text', 'start', 'duration'}]. *)
Record TimedCue := mkTimedCue {
  cue_text : str;
  cue_start : Q;
  cue_duration : Q
}.

(** The body of the [for i, segment in enumerate(segments)] loop of
    [_fix_timing_overlaps]: the dictionary appended for index [i].
    [segments[i + 1]] is read only under [i < len(segments) - 1], where
    it exists. *)
Definition fix_segment (segments : list RawCue) (i : nat) (segment : RawCue)
  : TimedCue :=
  let start_time := seg_start segment in
  let original_end := seg_end segment in
  let ideal_duration :=
    Py.max min_display_time
           (Py.min max_display_time (original_end - start_time)) in
  let ideal_duration :=
    if bool_decide (i < length segments - 1)%nat then
      match segments !! (i + 1)%nat with
      | Some next =>
          let next_start := seg_start next in
          let max_end_time := next_start - min_gap_between_text in
          if Py.gt (start_time + ideal_duration) max_end_time
          then Py.max 0.5 (max_end_time - start_time)
          else ideal_duration
      | None => ideal_duration
      end
    else ideal_duration in
  let final_duration := Py.max min_display_time ideal_duration in
  {| cue_text := seg_text segment;
     cue_start := start_time;
     cue_duration := final_duration |}.

Definition _fix_timing_overlaps (segments : list RawCue) : list TimedCue :=
  match segments with
  | [] => []
  | _ => imap (fix_segment segments) segments
  end.

(** *** The resolver as section 4.2 of the design document words it *)

(** [clamp(x, lo, hi)]: [x] limited to the interval [[lo, hi]]. *)
Definition clamp (x lo hi : Q) : Q :=
  if Py.gt lo x then lo else if Py.gt x hi then hi else x.

(** Steps 1 to 3 for one cue, given its successor if it has one. *)
Definition spec_duration (cue : RawCue) (next : option RawCue) : Q :=
  let ideal_duration :=
    clamp (seg_end cue - seg_start cue) min_display_time max_display_time in
  let ideal_duration :=
    match next with
    | Some n =>
        let max_end_time := seg_start n - min_gap_between_text in
        if Py.gt (seg_start cue + ideal_duration) max_end_time
        then Qmax 0.5 (max_end_time - seg_start cue)
        else ideal_duration
    | None => ideal_duration
    end in
  Qmax min_display_time ideal_duration.

Fixpoint spec_resolve (cues : list RawCue) : list TimedCue :=
  match cues with
  | [] => []
  | cue :: rest =>
      {| cue_text := seg_text cue;
         cue_start := seg_start cue;
         cue_duration := spec_duration cue (head rest) |}
      :: spec_resolve rest
  end.

(** Two timed cues that agree up to numeric equality of the duration. *)
Definition same_cue (a b : TimedCue) : Prop :=
  cue_text a = cue_text b /\ cue_start a = cue_start b /\
  cue_duration a == cue_duration b.

(** The input is ordered by [start]. *)
Definition sorted_by_start (segments : list RawCue) : Prop :=
  forall i a b, segments !! i = Some a -> segments !! (i + 1)%nat = Some b ->
    seg_start a <= seg_start b.

(** Consecutive timed cues are never on screen together. *)
Definition no_visual_overlap (cues : list TimedCue) : Prop :=
  forall i a b, cues !! i = Some a -> cues !! (i + 1)%nat = Some b ->
    cue_start a + cue_duration a <= cue_start b.

(** Two cues whose starts are 0.3s apart. *)
Definition close_cues : list RawCue :=
  [ mkRawCue (list_ascii_of_string "Sharks") 0 1.2;
    mkRawCue (list_ascii_of_string "never sleep") 0.3 2 ].

(** Two cues whose starts are 0.8s apart: the shrink step computes 0.7. *)
Definition tight_cues : list RawCue :=
  [ mkRawCue (list_ascii_of_string "Sharks") 0 2;
    mkRawCue (list_ascii_of_string "never sleep") 0.8 2 ].

(** Two cues with slack between their starts. *)
Definition spaced_cues : list RawCue :=
  [ mkRawCue (list_ascii_of_string "Sharks") 0 1.2;
    mkRawCue (list_ascii_of_string "never sleep") 1.25 2 ].

(** ** utils/video_creator.py: word grouping *)

(** A word of a transcript segment: [{'word', 'start', 'end'}]. *)
Record Word := mkWord {
  word : str;
  word_start : Q;
  word_end : Q
}.

(** The tuple [('.', '!', '?', ',')]. *)
Definition group_punctuation : list str :=
  [ ["."%char]; ["!"%char]; ["?"%char]; [","%char] ].

(** [word["word"].strip().endswith(('.', '!', '?', ','))]. *)
Definition ends_with_punctuation (w : Word) : bool :=
  Py.endswith_any (Py.strip (word w)) group_punctuation.

(** One turn of [for word in words], on the pair
    [(groups, current_group)]. *)
Definition group_step (st : list (list Word) * list Word) (w : Word)
  : list (list Word) * list Word :=
  let '(groups, current_group) := st in
  let current_group := current_group ++ [w] in
  if bool_decide (7 <= length current_group)%nat then
    (groups ++ [current_group], [])
  else if bool_decide (4 <= length current_group)%nat
          && ends_with_punctuation w then
    (groups ++ [current_group], [])
  else
    (groups, current_group).

Definition _create_word_groups (words : list Word) : list (list Word) :=
  let '(groups, current_group) := fold_left group_step words ([], []) in
  match current_group with
  | [] => groups
  | _ => groups ++ [current_group]
  end.

(** A group the loop closed: full, or at least 4 words ending in
    punctuation. *)
Definition closed_in_loop (g : list Word) : Prop :=
  length g = 7%nat
  \/ ((4 <= length g < 7)%nat /\
      exists w, last g = Some w /\ ends_with_punctuation w = true).

Definition plain_word (s : string) : Word :=
  mkWord (list_ascii_of_string s) 0 0.

(** The example of the design document, followed by one more word. *)
Definition fox_words : list Word :=
  map plain_word ["The"; "quick"; "brown"; "fox,"; "jumps"]%string.

(** ** utils/video_creator.py: background framing *)

(** What the source reads of a moviepy [VideoFileClip]: the frame size in
    pixels and the duration in seconds. *)
Record VideoFileClip := mkVideo {
  video_w : Z;
  video_h : Z;
  video_duration : Q
}.

(** The clips the function builds, by the moviepy method that builds them.
    The module uses moviepy under its version 2 names ([from moviepy import
    VideoFileClip], [cropped], [resized], [subclipped], [with_audio]); a
    clip of that version has these methods and no method [loop] (looping
    is the effect [vfx.Loop] there). *)
Inductive Clip :=
| Source (video : VideoFileClip)
| Cropped (x1 x2 : Z) (clip : Clip)
| Resized (height : Z) (clip : Clip)
| Subclipped (start_time end_time : Q) (clip : Clip).

(** The [duration] attribute of a clip: moviepy keeps it under [cropped]
    and [resized], and sets it to [end_time - start_time] under
    [subclipped]. *)
Fixpoint clip_duration (clip : Clip) : Q :=
  match clip with
  | Source video => video_duration video
  | Cropped _ _ clip => clip_duration clip
  | Resized _ clip => clip_duration clip
  | Subclipped start_time end_time _ => end_time - start_time
  end.

(** How a call of the function ends: it returns a clip; or [video.w /
    video.h] raises [ZeroDivisionError]; or [video_resized.loop] raises
    [AttributeError], the clip having no such attribute ([clip] is the clip
    the attribute was looked up on). *)
Inductive Framing :=
| Framed (clip : Clip)
| ZeroDivisionError
| AttributeError (clip : Clip).

Definition target_height : Z := 1920.

(** [_resize_to_shorts_format_with_random_start(video, required_duration)].
    [uniform] is [random.uniform], the draw of the process-wide random
    source.  [int(video.h * 9/16)] truncates, [//] floors. *)
Definition _resize_to_shorts_format_with_random_start
    (uniform : Q -> Q -> Q) (video : VideoFileClip) (required_duration : Q)
  : Framing :=
  let target_aspect := 9 / 16 in
  match Py.truediv_int (video_w video) (video_h video) with
  | None => ZeroDivisionError
  | Some current_aspect =>
      let video_resized :=
        if Py.gt current_aspect target_aspect then
          let new_width := Z.quot (video_h video * 9) 16 in
          let x_center := (video_w video / 2)%Z in
          let x1 := (x_center - new_width / 2)%Z in
          let x2 := (x_center + new_width / 2)%Z in
          let video_cropped := Cropped x1 x2 (Source video) in
          Resized target_height video_cropped
        else
          Resized target_height (Source video) in
      let background_duration := clip_duration video_resized in
      if Py.lt background_duration required_duration then
        AttributeError video_resized
      else
        let max_start_time := background_duration - required_duration in
        let random_start :=
          if Py.le max_start_time 0 then 0 else uniform 0 max_start_time in
        let end_time := random_start + required_duration in
        Framed (Subclipped random_start end_time video_resized)
  end.

(** A draw of [random.uniform(a, b)]: the midpoint. *)
Definition uniform_mid (a b : Q) : Q := a + (b - a) * 0.5.

(** A source of 20 seconds, shorter than a narration of 30 seconds. *)
Definition short_video : VideoFileClip := mkVideo 1920 1080 20.

(** ** utils/config.py and utils/script_generator.py: duplicate detection *)

(** [Config.SIMILARITY_THRESHOLD]. *)
Definition SIMILARITY_THRESHOLD : Q := 0.7.

(** An entry of the fact history:
    [{"fact", "full_script", "generated_at", "model"}]. *)
Record FactRecord := mkFact {
  fact : str;
  full_script : str;
  generated_at : str;
  model : str
}.

(** [self.facts_data]: the entries by topic, and the count kept under
    ["metadata"]. *)
Record FactsData := mkFacts {
  facts_by_topic : gmap str (list FactRecord);
  total_facts : nat
}.

(** [get_existing_facts(topic)]:
    [[fact["fact"] for fact in facts_by_topic.get(topic, [])]]. *)
Definition get_existing_facts (facts_data : FactsData) (topic : str)
  : list str :=
  map fact (default [] (facts_by_topic facts_data !! topic)).

(** [set(text.lower().split())]. *)
Definition word_set (text : str) : gset str :=
  list_to_set (Py.split (Py.lower text)).

(** The [for existing_fact in existing_facts] loop of [is_fact_duplicate],
    with its early [return True]; [None] stands for an exception. *)
Fixpoint duplicate_loop (new_fact_words : gset str)
    (existing_facts : list str) : option bool :=
  match existing_facts with
  | [] => Some false
  | existing_fact :: rest =>
      let existing_words := word_set existing_fact in
      let intersection := size (new_fact_words ∩ existing_words) in
      let union := size (new_fact_words ∪ existing_words) in
      if bool_decide (0 < union)%nat then
        similarity ← Py.truediv intersection union;
        if Py.gt similarity SIMILARITY_THRESHOLD then Some true
        else duplicate_loop new_fact_words rest
      else duplicate_loop new_fact_words rest
  end.

Definition is_fact_duplicate (facts_data : FactsData)
    (new_fact topic : str) : option bool :=
  let existing_facts := get_existing_facts facts_data topic in
  let new_fact_words := word_set new_fact in
  duplicate_loop new_fact_words existing_facts.

(** The Jaccard similarity of two facts exceeds the threshold: the union of
    their word sets is not empty and intersection over union is above
    0.7. *)
Definition too_similar (new_fact existing_fact : str) : Prop :=
  let inter := size (word_set new_fact ∩ word_set existing_fact) in
  let union := size (word_set new_fact ∪ word_set existing_fact) in
  (0 < union)%nat
  /\ SIMILARITY_THRESHOLD
     < inject_Z (Z.of_nat inter) / inject_Z (Z.of_nat union).

Definition str_of (text : string) : str := list_ascii_of_string text.

(** A history with one topic holding a fact and an empty fact. *)
Definition sample_facts : FactsData :=
  mkFacts
    {[ str_of "Animals" :=
         [ mkFact (str_of "Octopuses have three hearts") [] [] [];
           mkFact [] [] [] [] ] ]}
    2.

(** ** Python's [textwrap.wrap], as [_smart_text_wrap] calls it

    [textwrap] belongs to the Python standard library.  What follows embeds
    [TextWrapper.wrap] of CPython's [Lib/textwrap.py] at the options of the
    call: [width], [break_long_words=False], [break_on_hyphens=False], and
    the defaults [expand_tabs=True], [tabsize=8], [replace_whitespace=True],
    [drop_whitespace=True], [fix_sentence_endings=False], [max_lines=None]
    and empty indents. *)

Module textwrap.

(** [_whitespace = '\t\n\x0b\x0c\r ']. *)
Definition _whitespace : str :=
  ["009"; "010"; "011"; "012"; "013"; " "]%char.

Definition is_whitespace (c : ascii) : bool := bool_decide (c ∈ _whitespace).

Definition tabsize : nat := 8.

(** [text.expandtabs(tabsize)]: a tab becomes the spaces that reach the
    next tab stop; [column] restarts after a line feed or carriage
    return. *)
Fixpoint expandtabs (column : nat) (text : str) : str :=
  match text with
  | [] => []
  | c :: rest =>
      if bool_decide (c = "009"%char) then
        let incr := (tabsize - column mod tabsize)%nat in
        replicate incr " "%char ++ expandtabs (column + incr) rest
      else if bool_decide (c = "010"%char) || bool_decide (c = "013"%char)
      then c :: expandtabs 0 rest
      else c :: expandtabs (column + 1) rest
  end.

(** [_munge_whitespace]: tabs expanded, then every character of
    [_whitespace] translated to a space. *)
Definition _munge_whitespace (text : str) : str :=
  map (fun c => if is_whitespace c then " "%char else c) (expandtabs 0 text).

(** [_split] with [break_on_hyphens=False]: [wordsep_simple_re.split] and
    the removal of the empty pieces leave the maximal runs of whitespace
    and of other characters, in order.  [cur] is the run being read. *)
Fixpoint split_runs (cur : str) (text : str) : list str :=
  match text with
  | [] => match cur with [] => [] | _ => [cur] end
  | c :: rest =>
      match cur with
      | [] => split_runs [c] rest
      | d :: _ =>
          if Bool.eqb (is_whitespace c) (is_whitespace d)
          then split_runs (cur ++ [c]) rest
          else cur :: split_runs [c] rest
      end
  end.
Definition _split (text : str) : list str := split_runs [] text.

(** [chunk.strip() == '']. *)
Definition is_blank (chunk : str) : bool :=
  match Py.strip chunk with [] => true | _ => false end.

(** The inner [while chunks:] loop of [_wrap_chunks]: chunks move to
    [cur_line] while they fit.  The list [chunks] is in reading order: its
    head is [chunks[-1]] of the reversed list the source pops from. *)
Fixpoint fill_line (width : nat) (chunks cur_line : list str) (cur_len : nat)
  : list str * nat * list str :=
  match chunks with
  | [] => (cur_line, cur_len, [])
  | chunk :: rest =>
      let l := length chunk in
      if bool_decide (cur_len + l <= width)%nat
      then fill_line width rest (cur_line ++ [chunk]) (cur_len + l)
      else (cur_line, cur_len, chunks)
  end.

(** [_handle_long_word] with [break_long_words=False]: the chunk goes on
    the line only if the line is empty.  Returns [(chunks, cur_line)]. *)
Definition _handle_long_word (chunks cur_line : list str)
  : list str * list str :=
  match cur_line, chunks with
  | [], chunk :: rest => (rest, [chunk])
  | _, _ => (chunks, cur_line)
  end.

(** [if self.drop_whitespace and chunks[-1].strip() == '' and lines:
    del chunks[-1]]: a blank chunk does not open a line, the first line
    apart. *)
Definition drop_leading (lines chunks : list str) : list str :=
  match chunks, lines with
  | chunk :: rest, _ :: _ => if is_blank chunk then rest else chunks
  | _, _ => chunks
  end.

(** [if chunks and len(chunks[-1]) > width: self._handle_long_word(...)].
    Returns [(chunks, cur_line)]. *)
Definition long_word (width : nat) (chunks cur_line : list str)
  : list str * list str :=
  match chunks with
  | chunk :: _ =>
      if bool_decide (width < length chunk)%nat
      then _handle_long_word chunks cur_line
      else (chunks, cur_line)
  | [] => (chunks, cur_line)
  end.

(** [if self.drop_whitespace and cur_line and cur_line[-1].strip() == '':
    del cur_line[-1]]. *)
Definition drop_trailing (cur_line : list str) : list str :=
  match last cur_line with
  | Some chunk => if is_blank chunk then removelast cur_line else cur_line
  | None => cur_line
  end.

(** [if cur_line: lines.append(indent + ''.join(cur_line))], the indent
    being empty. *)
Definition append_line (lines cur_line : list str) : list str :=
  match cur_line with
  | [] => lines
  | _ => lines ++ [concat cur_line]
  end.

(** One turn of the outer [while chunks:] loop of [_wrap_chunks], on
    [(lines, chunks)].  [cur_len] is not read after the inner loop when
    [max_lines] is [None]. *)
Definition wrap_turn (width : nat) (lines chunks : list str)
  : list str * list str :=
  let chunks := drop_leading lines chunks in
  let '(cur_line, _, chunks) := fill_line width chunks [] 0 in
  let '(chunks, cur_line) := long_word width chunks cur_line in
  let cur_line := drop_trailing cur_line in
  (append_line lines cur_line, chunks).

(** The inner loop hands back a suffix of the chunks it was given. *)
Lemma fill_line_rest (width : nat) (chunks : list str) :
  forall cur_line cur_len,
    (length (fill_line width chunks cur_line cur_len).2 <= length chunks)%nat.
Proof.
  induction chunks as [|chunk rest IH]; intros cur_line cur_len; simpl.
  - lia.
  - case_bool_decide; simpl; [|lia].
    specialize (IH (cur_line ++ [chunk]) (cur_len + length chunk)%nat). lia.
Qed.

Lemma long_word_rest (width : nat) (chunks cur_line : list str) :
  (length (long_word width chunks cur_line).1 <= length chunks)%nat.
Proof.
  unfold long_word, _handle_long_word.
  destruct chunks as [|chunk rest]; [done|].
  case_bool_decide; [|done]. destruct cur_line; simpl; lia.
Qed.

(** Every turn of the outer loop consumes a chunk. *)
Lemma wrap_turn_consumes (width : nat) (lines : list str)
    (chunk : str) (rest : list str) :
  (length (wrap_turn width lines (chunk :: rest)).2 < length (chunk :: rest))%nat.
Proof.
  unfold wrap_turn.
  assert (Hcases : drop_leading lines (chunk :: rest) = rest
                   \/ drop_leading lines (chunk :: rest) = chunk :: rest).
  { unfold drop_leading. destruct lines; [now right|].
    destruct (is_blank chunk); [now left | now right]. }
  destruct Hcases as [-> | ->].
  - pose proof (fill_line_rest width rest [] 0%nat) as Hr.
    destruct (fill_line width rest [] 0%nat) as [[cur_line cur_len] chunks].
    pose proof (long_word_rest width chunks cur_line) as Hl.
    destruct (long_word width chunks cur_line). simpl in *. lia.
  - cbn [fill_line]. case_bool_decide as Hfit.
    + pose proof (fill_line_rest width rest ([] ++ [chunk])
                    (0 + length chunk)%nat) as Hr.
      destruct (fill_line width rest _ _) as [[cur_line cur_len] chunks].
      pose proof (long_word_rest width chunks cur_line) as Hl.
      destruct (long_word width chunks cur_line). simpl in *. lia.
    + unfold long_word. rewrite bool_decide_true by (simpl in Hfit; lia).
      simpl. lia.
Qed.

(** The outer [while chunks:] loop. *)
Equations? wrap_loop (width : nat) (lines chunks : list str) : list str
  by wf (length chunks) lt :=
  wrap_loop width lines [] := lines;
  wrap_loop width lines (chunk :: rest) :=
    wrap_loop width (wrap_turn width lines (chunk :: rest)).1
                    (wrap_turn width lines (chunk :: rest)).2.
Proof. apply wrap_turn_consumes. Qed.

(** [_wrap_chunks]: [ValueError] ([None]) on a width that is not
    positive. *)
Definition _wrap_chunks (width : Z) (chunks : list str)
  : option (list str) :=
  if bool_decide (width <= 0)%Z then None
  else Some (wrap_loop (Z.to_nat width) [] chunks).

(** [textwrap.wrap(text, width, break_long_words=False,
    break_on_hyphens=False)]. *)
Definition wrap (text : str) (width : Z) : option (list str) :=
  _wrap_chunks width (_split (_munge_whitespace text)).

End textwrap.

(** ** utils/video_creator.py: the text wrapper *)

Definition _smart_text_wrap (text : str) (max_chars_per_line : Z)
  : option str :=
  wrapped_lines ← textwrap.wrap text max_chars_per_line;
  Some (Py.join ["010"%char] wrapped_lines).

(** ** Vocabulary for the properties of the text wrapper *)

(** A string of whitespace only. *)
Definition blank (s : str) : Prop := Forall (fun c => Py.isspace c = true) s.

(** What [split] emits for the run read so far when it meets whitespace. *)
Definition flush (cur : str) : list str :=
  match cur with [] => [] | _ => [cur] end.

(** Two strings meet at a word boundary: the left one ends with
    whitespace or the right one starts with it. *)
Definition word_boundary (s t : str) : Prop :=
  (exists s' c, s = s' ++ [c] /\ Py.isspace c = true)
  \/ (exists c t', t = c :: t' /\ Py.isspace c = true).

(** The kind of a chunk of [_split]: whitespace or not, read off its first
    character. *)
Definition kind (chunk : str) : bool :=
  match chunk with
  | c :: _ => textwrap.is_whitespace c
  | [] => false
  end.

(** A chunk is a non-empty run of characters of one kind. *)
Definition run (chunk : str) : Prop :=
  chunk <> []
  /\ Forall (fun c => textwrap.is_whitespace c = kind chunk) chunk.

(** Runs of alternating kinds. *)
Fixpoint runs (chunks : list str) : Prop :=
  match chunks with
  | [] => True
  | a :: rest =>
      run a
      /\ match rest with b :: _ => kind a <> kind b | [] => True end
      /\ runs rest
  end.

(** A line [textwrap] cannot break: it holds none of the characters of
    [_whitespace], the only places where [textwrap] breaks a text. *)
Definition unbreakable (line : str) : Prop :=
  line <> [] /\ Forall (fun c => textwrap.is_whitespace c = false) line.

(** A line respects the limit, or is longer and cannot be broken. *)
Definition line_ok (width : nat) (line : str) : Prop :=
  (length line <= width)%nat
  \/ ((width < length line)%nat /\ unbreakable line).

(** A line that consists of a single word: split at whitespace, as the
    word sequence of a text is, it gives one word, the line itself. *)
Definition single_word (line : str) : Prop := Py.split line = [line].

(** Every whitespace character of the text is one of [_whitespace]: the
    text holds none of U+001C to U+001F, U+0085 and U+00A0, which separate
    words for [str.split()] and are no break points for [textwrap]. *)
Definition breakable_whitespace (text : str) : bool :=
  forallb (fun c => implb (Py.isspace c) (textwrap.is_whitespace c)) text.

(** The line feed [_smart_text_wrap] joins the lines with, and the space. *)
Definition newline : ascii := "010"%char.
Definition space : ascii := " "%char.

(** The no-break space, and a cue text of two words joined by it. *)
Definition nbsp : ascii := ascii_of_nat 160.
Definition nbsp_text : str := str_of "be" ++ nbsp :: str_of "or".

(** Two cue texts. *)
Definition sharks_text : str :=
  list_ascii_of_string "Sharks never sleep, not even at night-time".
Definition long_word_text : str :=
  list_ascii_of_string "an extraordinarily long-winded word".

(** ** utils/script_generator.py: the fact history *)

(** The dictionary [generate_script] returns. *)
Record ScriptData := mkScript {
  sd_topic : str;
  sd_hook : str;
  sd_fact : str;
  sd_explanation : str;
  sd_cta : str;
  sd_full_script : str;
  sd_generated_at : str;
  sd_word_count : nat;
  sd_estimated_duration : str;
  sd_model : str
}.

(** What a [ScriptGenerator] holds and changes: [self.model],
    [self.topics], [self.facts_data], and the ["last_updated"] entry of
    its ["metadata"], absent until the first save.  The API client and the
    file name are not part of the state. *)
Record Generator := mkGenerator {
  gen_model : str;
  gen_topics : list str;
  gen_facts : FactsData;
  gen_last_updated : option str
}.

(** What [load_facts] returns without a readable file. *)
Definition empty_facts : FactsData := mkFacts ∅ 0.

(** [sum(len(facts) for facts in facts_by_topic.values())]. *)
Definition count_facts (by_topic : gmap str (list FactRecord)) : nat :=
  map_fold (fun _ facts total => (length facts + total)%nat) 0%nat by_topic.

(** How a method that writes the history to its file ends: it returns,
    or [open] or [json.dump] raises.  Either way [g] is the generator as
    the call leaves it: the history is changed before the file is
    opened. *)
Inductive Save :=
| Saved (g : Generator)
| SaveRaised (g : Generator).

(** The generator a call leaves, however it ends. *)
Definition after (save : Save) : Generator :=
  match save with
  | Saved g => g
  | SaveRaised g => g
  end.

(** [save_facts]: stamps the metadata and recounts the facts, then dumps
    the history to [generated_facts.json].  [now] is
    [datetime.now().isoformat()]; [written] tells whether [open] and
    [json.dump] go through. *)
Definition save_facts (written : bool) (now : str) (g : Generator) : Save :=
  let g' :=
    {| gen_model := gen_model g;
       gen_topics := gen_topics g;
       gen_facts :=
         {| facts_by_topic := facts_by_topic (gen_facts g);
            total_facts := count_facts (facts_by_topic (gen_facts g)) |};
       gen_last_updated := Some now |} in
  if written then Saved g' else SaveRaised g'.

(** [_save_script_to_database(script_data, main_fact, topic)]: the topic
    gets an empty list if it has none, the new entry goes to the end of
    the topic's list, and the history is saved.  [now] is the time read
    for the entry, [now_saved] the time read by [save_facts]; an exception
    of [save_facts] is not caught here. *)
Definition _save_script_to_database (written : bool) (now now_saved : str)
    (g : Generator) (script_data : ScriptData) (main_fact topic : str)
  : Save :=
  let by_topic := facts_by_topic (gen_facts g) in
  let by_topic :=
    match by_topic !! topic with
    | None => <[topic := []]> by_topic
    | Some _ => by_topic
    end in
  let entry :=
    {| fact := main_fact;
       full_script := sd_full_script script_data;
       generated_at := now;
       model := gen_model g |} in
  let by_topic :=
    <[topic := default [] (by_topic !! topic) ++ [entry]]> by_topic in
  save_facts written now_saved
    {| gen_model := gen_model g;
       gen_topics := gen_topics g;
       gen_facts := {| facts_by_topic := by_topic;
                       total_facts := total_facts (gen_facts g) |};
       gen_last_updated := gen_last_updated g |}.

(** [is_fact_duplicate] on the history a generator holds. *)
Definition gen_is_duplicate (g : Generator) (new_fact topic : str)
  : option bool :=
  is_fact_duplicate (gen_facts g) new_fact topic.

(** A generator with the sample history. *)
Definition sample_generator : Generator :=
  mkGenerator (str_of "gemini-2.5-flash") [str_of "Animals"]
    sample_facts None.

(** A script about the sample topic. *)
Definition sample_script : ScriptData :=
  mkScript (str_of "Animals") (str_of "Did you know?")
    (str_of "Sharks never sleep") (str_of "They keep swimming.")
    (str_of "Follow for more!")
    (str_of "Did you know? Sharks never sleep They keep swimming. Follow for more!")
    (str_of "2025-01-01T00:00:00") 12 (str_of "7.2 seconds")
    (str_of "gemini-2.5-flash").

(** ** utils/video_creator.py: the frame of the background *)

(** The clip the timing step of the function works on: the clip
    [subclipped] was applied to, or the clip [loop] was looked up on.
    There is none when the aspect ratio could not be computed. *)
Definition framed_source (result : Framing) : option Clip :=
  match result with
  | Framed (Subclipped _ _ inner) => Some inner
  | Framed clip => Some clip
  | AttributeError clip => Some clip
  | ZeroDivisionError => None
  end.

(** A landscape and a portrait source. *)
Definition landscape_video : VideoFileClip := mkVideo 1920 1080 60.
Definition portrait_video : VideoFileClip := mkVideo 1080 1920 60.

(** ** utils/video_creator.py: subtitles *)

(** A segment of the transcript; the ["words"] key may be missing. *)
Record Segment := mkSegment {
  seg_words : option (list Word)
}.

(** An entry of the [styles] dictionary. *)
Record Style := mkStyle {
  font_size : Z;
  color : str;
  stroke_color : str;
  stroke_width : Z;
  max_chars_per_line : Z
}.

Definition ultra_vibrant : Style :=
  mkStyle 75 (str_of "#FFFF00") (str_of "#000000") 8 28.
Definition neon_pop : Style :=
  mkStyle 78 (str_of "#00FFFF") (str_of "#FF00FF") 7 26.
Definition fire_text : Style :=
  mkStyle 80 (str_of "#FF4500") (str_of "#FFFFFF") 9 25.

Definition styles : gmap str Style :=
  list_to_map [ (str_of "ultra_vibrant", ultra_vibrant);
                (str_of "neon_pop", neon_pop);
                (str_of "fire_text", fire_text) ].

(** [styles.get(style, styles["ultra_vibrant"])]. *)
Definition current_style (style : str) : Style :=
  default ultra_vibrant (styles !! style).

(** The attributes [__init__] sets for the canvas and the text area. *)
Definition target_width : Z := 1080.
Definition text_margin : Z := 80.
Definition safe_text_width : Z := target_width - text_margin * 2.
Definition max_text_height : Z := 800.

(** [self.safe_fonts]; [None] is the default font. *)
Definition safe_fonts : list (option str) :=
  [ None; Some (str_of "Arial"); Some (str_of "DejaVu-Sans");
    Some (str_of "Helvetica"); Some (str_of "Liberation-Sans") ].

(** The arguments of a [TextClip(...)] call that vary: [method='caption']
    and [text_align='center'] are the same in every call.  A call without
    [stroke_color] and [stroke_width] has [tc_stroke = None]; a call
    without [font] uses the default font, like [font=None]. *)
Record TextClipArgs := mkTextClipArgs {
  tc_text : str;
  tc_font_size : Z;
  tc_color : str;
  tc_stroke : option (str * Z);
  tc_size : Z * Z;
  tc_font : option str
}.

(** A text clip placed on the canvas: the arguments it was built with,
    its height [h], and what [with_position], [with_start] and
    [with_duration] set. *)
Record SubtitleClip := mkSubtitleClip {
  sc_args : TextClipArgs;
  sc_h : Z;
  sc_position : Z * Z;
  sc_start : Q;
  sc_duration : Q
}.

(** The [for font in self.safe_fonts] loop of [_create_safe_text_clip].
    [render] is moviepy's [TextClip]: the height of the clip it builds, or
    [None] when it raises. *)
Fixpoint try_fonts (render : TextClipArgs -> option Z)
    (wrapped_text : str) (style : Style) (start_time duration : Q)
    (fonts : list (option str)) : option SubtitleClip :=
  match fonts with
  | [] => None
  | font :: rest =>
      let args :=
        {| tc_text := wrapped_text;
           tc_font_size := font_size style;
           tc_color := color style;
           tc_stroke := Some (stroke_color style, stroke_width style);
           tc_size := (safe_text_width, max_text_height);
           tc_font := font |} in
      match render args with
      | Some h =>
          let video_center_y := (target_height / 2)%Z in
          let y_position := (video_center_y - h / 2)%Z in
          let x_position := ((target_width - safe_text_width) / 2)%Z in
          Some {| sc_args := args; sc_h := h;
                  sc_position := (x_position, y_position);
                  sc_start := start_time; sc_duration := duration |}
      | None => try_fonts render wrapped_text style start_time duration rest
      end
  end.

(** [_create_safe_text_clip(text, style, start_time, duration)].  The
    outer [None] is the [ValueError] of the text wrapper, raised before
    the [try]; the inner one is the [None] the function returns when no
    clip could be built. *)
Definition _create_safe_text_clip (render : TextClipArgs -> option Z)
    (text : str) (style : Style) (start_time duration : Q)
  : option (option SubtitleClip) :=
  wrapped_text ← _smart_text_wrap text (max_chars_per_line style);
  match try_fonts render wrapped_text style start_time duration safe_fonts
  with
  | Some clip => Some (Some clip)
  | None =>
      let args :=
        {| tc_text := wrapped_text;
           tc_font_size := font_size style;
           tc_color := color style;
           tc_stroke := None;
           tc_size := (safe_text_width, max_text_height);
           tc_font := None |} in
      match render args with
      | Some h =>
          let y_position := ((target_height - h) / 2)%Z in
          let x_position := ((target_width - safe_text_width) / 2)%Z in
          Some (Some {| sc_args := args; sc_h := h;
                        sc_position := (x_position, y_position);
                        sc_start := start_time; sc_duration := duration |})
      | None => Some None
      end
  end.

(** The dictionary appended to [text_segments] for one word group;
    [group[0]] and [group[-1]] raise [IndexError] ([None]) on an empty
    group. *)
Definition group_cue (group : list Word) : option RawCue :=
  let text := Py.strip (Py.join [" "%char] (map word group)) in
  first ← head group;
  final ← last group;
  Some {| seg_text := text;
          seg_start := word_start first;
          seg_end := word_end final |}.

(** The cues of one segment: none when it has no ["words"]. *)
Definition segment_cues (segment : Segment) : option (list RawCue) :=
  match seg_words segment with
  | Some words => mapM group_cue (_create_word_groups words)
  | None => Some []
  end.

(** The list [text_segments] after the loop over
    [transcript_result["segments"]]. *)
Definition text_segments (segments : list Segment) : option (list RawCue) :=
  cues ← mapM segment_cues segments;
  Some (concat cues).

(** [_create_vibrant_subtitles(transcript_result, style)]: the clips of
    the cues that could be rendered, in order. *)
Definition _create_vibrant_subtitles (render : TextClipArgs -> option Z)
    (segments : list Segment) (style : str) : option (list SubtitleClip) :=
  let current := current_style style in
  cues ← text_segments segments;
  let fixed_segments := _fix_timing_overlaps cues in
  clips ← mapM (fun segment =>
                  _create_safe_text_clip render (cue_text segment) current
                    (cue_start segment) (cue_duration segment))
               fixed_segments;
  Some (omap id clips).

(** The words a transcript holds, segment by segment. *)
Definition transcript_words (segments : list Segment) : list Word :=
  concat (map (fun segment => default [] (seg_words segment)) segments).

(** A renderer that knows no font but the default one, and one that knows
    none. *)
Definition render_default (args : TextClipArgs) : option Z :=
  match tc_font args with
  | None => Some 225%Z
  | Some _ => None
  end.
Definition render_nothing (args : TextClipArgs) : option Z := None.

(** A transcript of one segment with words and one without. *)
Definition sample_transcript : list Segment :=
  [ mkSegment (Some fox_words); mkSegment None ].

(** The word groups of a transcript, segment by segment. *)
Definition transcript_groups (segments : list Segment) : list (list Word) :=
  concat (map (fun segment =>
                 match seg_words segment with
                 | Some words => _create_word_groups words
                 | None => []
                 end) segments).

(** The words of a list of timed words, as [split] finds them. *)
Definition spoken (words : list Word) : list str :=
  concat (map (fun w => Py.split (word w)) words).

(** A cue made from a word group: it runs from the start of the first word
    to the end of the last, and its text spells the words of the group. *)
Definition cue_of_group (group : list Word) (cue : RawCue) : Prop :=
  exists first final,
    head group = Some first /\ last group = Some final
    /\ seg_start cue = word_start first /\ seg_end cue = word_end final
    /\ Py.split (seg_text cue) = spoken group.

(** The start times of a list of words never decrease. *)
Definition starts_ordered (words : list Word) : Prop :=
  forall i j a b, (i <= j)%nat ->
    words !! i = Some a -> words !! j = Some b ->
    word_start a <= word_start b.

(** Nine words with the times of a steady speaker. *)
Definition timed_words : list Word :=
  imap (fun i text => mkWord (str_of text) (inject_Z (Z.of_nat i))
                        (inject_Z (Z.of_nat i) + 0.5))
    ["Sharks"; "never"; "really"; "sleep,"; "they"; "just"; "rest";
     "one"; "half."]%string.

(** The arguments of the [TextClip] call for one font of [safe_fonts], and
    of the last, minimal call. *)
Definition styled_args (wrapped_text : str) (style : Style)
    (font : option str) : TextClipArgs :=
  {| tc_text := wrapped_text;
     tc_font_size := font_size style;
     tc_color := color style;
     tc_stroke := Some (stroke_color style, stroke_width style);
     tc_size := (safe_text_width, max_text_height);
     tc_font := font |}.

Definition plain_args (wrapped_text : str) (style : Style) : TextClipArgs :=
  {| tc_text := wrapped_text;
     tc_font_size := font_size style;
     tc_color := color style;
     tc_stroke := None;
     tc_size := (safe_text_width, max_text_height);
     tc_font := None |}.

(** A renderer that only knows Helvetica. *)
Definition render_helvetica (args : TextClipArgs) : option Z :=
  if bool_decide (tc_font args = Some (str_of "Helvetica"))
  then Some 151%Z else None.

(** ** More Python string methods *)

Module PyStr.

(** [s.startswith(prefix)]. *)
Definition startswith (s prefix : str) : bool :=
  bool_decide (prefix `prefix_of` s).

(** [s.replace(old, new)] for a non-empty [old]: the occurrences of [old]
    are found from left to right, without overlap.  [skip] counts the
    characters of a found occurrence still to pass. *)
Fixpoint replace_go (old new : str) (skip : nat) (s : str) : str :=
  match s with
  | [] => []
  | c :: rest =>
      match skip with
      | S k => replace_go old new k rest
      | O =>
          if startswith s old
          then new ++ replace_go old new (length old - 1) rest
          else c :: replace_go old new 0 rest
      end
  end.

(** [s.replace(old, new)]; with an empty [old], [new] goes before every
    character and at the end. *)
Definition replace (s old new : str) : str :=
  match old with
  | [] => new ++ concat (map (fun c => c :: new) s)
  | _ => replace_go old new 0 s
  end.

End PyStr.

(** ** utils/script_generator.py: reading the script *)

(** The keys of [script_parts] and the labels that announce them. *)
Definition HOOK : str := str_of "HOOK:".
Definition FACT : str := str_of "FACT:".
Definition EXPLANATION : str := str_of "EXPLANATION:".
Definition CTA : str := str_of "CTA:".
Definition hook : str := str_of "hook".
Definition explanation : str := str_of "explanation".
Definition cta : str := str_of "cta".
Definition fact_key : str := str_of "fact".

(** The body of the [for line in lines] loop of [_parse_script_content],
    on the dictionary [script_parts]. *)
Definition parse_line (script_parts : gmap str str) (line : str)
  : gmap str str :=
  let line := Py.strip line in
  if PyStr.startswith line HOOK then
    <[hook := Py.strip (PyStr.replace line HOOK [])]> script_parts
  else if PyStr.startswith line FACT then
    <[fact_key := Py.strip (PyStr.replace line FACT [])]> script_parts
  else if PyStr.startswith line EXPLANATION then
    <[explanation := Py.strip (PyStr.replace line EXPLANATION [])]>
      script_parts
  else if PyStr.startswith line CTA then
    <[cta := Py.strip (PyStr.replace line CTA [])]> script_parts
  else script_parts.

Definition _parse_script_content (script_content : str) : gmap str str :=
  let lines := Py.split_on newline script_content in
  fold_left parse_line lines ∅.

(** ['hook', 'fact', 'explanation', 'cta']. *)
Definition required_parts : list str := [hook; fact_key; explanation; cta].

(** The answer format the prompt asks for, one labelled line per part. *)
Definition script_text (h f e c : str) : str :=
  Py.join [newline]
    [ HOOK ++ space :: h; FACT ++ space :: f;
      EXPLANATION ++ space :: e; CTA ++ space :: c ].

(** A string without leading or trailing whitespace. *)
Definition trimmed (s : str) : Prop := Py.strip s = s.

(** [old] occurs nowhere in [s]. *)
Definition occurs_not (old s : str) : Prop :=
  forall before after, s <> before ++ old ++ after.

(** Neither the first nor the last character is whitespace. *)
Definition tight (s : str) : Prop :=
  (forall c, head s = Some c -> Py.isspace c = false)
  /\ (forall c, last s = Some c -> Py.isspace c = false).

(** The labels with their keys, in the order of the [if] chain. *)
Definition labels : list (str * str) :=
  [ (hook, HOOK); (fact_key, FACT); (explanation, EXPLANATION); (cta, CTA) ].

(** The branch of the [if] chain a line takes: its key and label. *)
Definition line_label (line : str) : option (str * str) :=
  let line := Py.strip line in
  if PyStr.startswith line HOOK then Some (hook, HOOK)
  else if PyStr.startswith line FACT then Some (fact_key, FACT)
  else if PyStr.startswith line EXPLANATION then Some (explanation, EXPLANATION)
  else if PyStr.startswith line CTA then Some (cta, CTA)
  else None.

(** ** utils/script_generator.py: [generate_script] *)

(** [Config.MAX_RETRIES]. *)
Definition MAX_RETRIES : nat := 3.

(** What a call of [self.client.chat.completions.create] comes to: an
    exception (a failed request, or an answer without text), a response
    without choices, or the text of the first choice. *)
Inductive ApiResponse :=
| ApiRaises
| ApiNoChoices
| ApiContent (content : str).

(** Why [generate_script] raises: the exception of the last attempt is
    raised again, the loop ends without a script, or [random.choice] is
    given no topic. *)
Inductive Failure :=
| AttemptFailed
| NoUniqueScript
| NoTopic.

(** The result of [generate_script] with the generator it leaves. *)
Inductive Outcome :=
| Returned (script_data : ScriptData) (g : Generator)
| Raised (why : Failure) (g : Generator).

(** The decimal digits of a natural number, as [str(n)] writes them.
    [fuel] bounds the number of digits. *)
Fixpoint decimal_go (fuel n : nat) (acc : str) : str :=
  match fuel with
  | O => acc
  | S fuel' =>
      let acc' := ascii_of_nat (48 + n mod 10) :: acc in
      if (n / 10 =? 0)%nat then acc' else decimal_go fuel' (n / 10) acc'
  end.
Definition decimal (n : nat) : str := decimal_go (S n) n [].

(** [f"{word_count * 0.6:.1f} seconds"]: six tenths of a second per word,
    with one decimal. *)
Definition estimated_duration_text (word_count : nat) : str :=
  decimal (6 * word_count / 10) ++ str_of "."
  ++ decimal (6 * word_count mod 10) ++ str_of " seconds".

(** [f"{hook} {fact} {explanation} {cta}"]. *)
Definition full_script_text (h f e c : str) : str :=
  h ++ space :: f ++ space :: e ++ space :: c.

(** The dictionary built when an answer is accepted; [now] is
    [datetime.now().isoformat()]. *)
Definition make_script_data (g : Generator) (topic h f e c now : str)
  : ScriptData :=
  let full_script := full_script_text h f e c in
  let word_count := length (Py.split full_script) in
  {| sd_topic := topic;
     sd_hook := h;
     sd_fact := f;
     sd_explanation := e;
     sd_cta := c;
     sd_full_script := Py.strip full_script;
     sd_generated_at := now;
     sd_word_count := word_count;
     sd_estimated_duration := estimated_duration_text word_count;
     sd_model := gen_model g |}.

(** The [for attempt in range(Config.MAX_RETRIES)] loop, from [attempt]
    on with [remaining] turns left, and the [raise] after it.  [api] gives
    the outcome of the request of each attempt; the request itself (the
    prompt, built once before the loop) is not modelled.  [write] tells,
    for each attempt, whether the history file can be written.  [clock]
    gives the successive readings of [datetime.now()], [read] of which
    were made so far.  An exception inside the [try], that of a failed
    write included, ends the call at the last attempt and is passed over
    otherwise; the generator stays as the failed call left it. *)
Fixpoint attempt_loop (api : nat -> ApiResponse) (write : nat -> bool)
    (clock : nat -> str) (g : Generator) (topic : str)
    (attempt remaining read : nat) : Outcome :=
  match remaining with
  | O => Raised NoUniqueScript g
  | S remaining' =>
      let next g read :=
        attempt_loop api write clock g topic (S attempt) remaining' read in
      let on_exception g read :=
        if bool_decide (attempt = MAX_RETRIES - 1)%nat
        then Raised AttemptFailed g else next g read in
      match api attempt with
      | ApiRaises => on_exception g read
      | ApiNoChoices => on_exception g read
      | ApiContent content =>
          let script_content := Py.strip content in
          let script_parts := _parse_script_content script_content in
          match script_parts !! hook, script_parts !! fact_key,
                script_parts !! explanation, script_parts !! cta with
          | Some h, Some f, Some e, Some c =>
              let main_fact := f in
              match gen_is_duplicate g main_fact topic with
              | Some false =>
                  let script_data :=
                    make_script_data g topic h f e c (clock read) in
                  match _save_script_to_database (write attempt)
                          (clock (read + 1)%nat) (clock (read + 2)%nat)
                          g script_data main_fact topic with
                  | Saved g' => Returned script_data g'
                  | SaveRaised g' => on_exception g' (read + 3)%nat
                  end
              | Some true => next g read
              | None => on_exception g read
              end
          | _, _, _, _ => next g read
          end
      end
  end.

(** [generate_script(topic)]; [choice] is [random.choice], which raises on
    an empty list. *)
Definition generate_script (choice : list str -> str)
    (api : nat -> ApiResponse) (write : nat -> bool) (clock : nat -> str)
    (g : Generator) (topic : option str) : Outcome :=
  let run g topic := attempt_loop api write clock g topic 0 MAX_RETRIES 0 in
  match topic with
  | None =>
      match gen_topics g with
      | [] => Raised NoTopic g
      | _ => run g (choice (gen_topics g))
      end
  | Some topic =>
      if bool_decide (topic ∈ gen_topics g) then run g topic
      else
        run {| gen_model := gen_model g;
               gen_topics := gen_topics g ++ [topic];
               gen_facts := gen_facts g;
               gen_last_updated := gen_last_updated g |} topic
  end.


(** What an answer is worth for a history and a topic: its four parts when
    it has text, all four parts are found in it, and its fact is no
    duplicate. *)
Definition accepted (g : Generator) (topic : str) (response : ApiResponse)
  : option (str * str * str * str) :=
  match response with
  | ApiContent content =>
      let script_parts := _parse_script_content (Py.strip content) in
      h ← script_parts !! hook;
      f ← script_parts !! fact_key;
      e ← script_parts !! explanation;
      c ← script_parts !! cta;
      match gen_is_duplicate g f topic with
      | Some false => Some (h, f, e, c)
      | _ => None
      end
  | _ => None
  end.

(** An API that fails twice and then answers in the format asked for. *)
Definition flaky_api (attempt : nat) : ApiResponse :=
  match attempt with
  | 0%nat => ApiRaises
  | 1%nat => ApiContent (str_of "Sorry, here is a joke instead.")
  | _ => ApiContent
           (script_text (sd_hook sample_script) (sd_fact sample_script)
              (sd_explanation sample_script) (sd_cta sample_script))
  end.

(** An API that answers in the format asked for at every attempt. *)
Definition steady_api (attempt : nat) : ApiResponse :=
  ApiContent
    (script_text (sd_hook sample_script) (sd_fact sample_script)
       (sd_explanation sample_script) (sd_cta sample_script)).

(** A history file that can always be written, and one that never can. *)
Definition writable (attempt : nat) : bool := true.
Definition unwritable (attempt : nat) : bool := false.

(** An API that is down. *)
Definition dead_api (attempt : nat) : ApiResponse := ApiRaises.

Definition sample_clock (n : nat) : str := str_of "2025-01-01T00:00:00".

Definition first_topic (topics : list str) : str := default [] (head topics).

(** ** pipeline.py: [load_config] *)

Section LoadConfig.

(** The values of a configuration: what [json.load] can give.  [text] is
    a string and [null] is [None]; the function never looks inside a
    value. *)
Context {V : Type} (text : str -> V) (null : V).

(** [default_config]; [api_key] is [os.getenv('GEMINI_API_KEY')]. *)
Definition default_config (api_key : V) : gmap str V :=
  list_to_map
    [ (str_of "input_folder", text (str_of "input_videos"));
      (str_of "output_folder", text (str_of "output_videos"));
      (str_of "background_video_name", text (str_of "background.mp4"));
      (str_of "topic", null);
      (str_of "subtitle_style", text (str_of "ultra_vibrant"));
      (str_of "voice", text (str_of "en-US-AriaNeural"));
      (str_of "gemini_api_key", api_key) ].

(** [{k: v for k, v in user_config.items() if not k.startswith('_')}]. *)
Definition without_comments (user_config : gmap str V) : gmap str V :=
  filter (fun kv => PyStr.startswith kv.1 (str_of "_") = false) user_config.

(** [load_config(config_file)].  [file] is the dictionary read from the
    file, or [None] when the file is missing or anything in the [try]
    raises (no JSON, or JSON that is no object): the defaults are then
    returned unchanged.  [update] lets the user's entries win. *)
Definition load_config (api_key : V) (file : option (gmap str V))
  : gmap str V :=
  match file with
  | Some user_config => without_comments user_config ∪ default_config api_key
  | None => default_config api_key
  end.

End LoadConfig.

(** The keys [default_config] defines. *)
Definition config_keys : list str :=
  map str_of [ "input_folder"; "output_folder"; "background_video_name";
               "topic"; "subtitle_style"; "voice"; "gemini_api_key" ]%string.

(** A configuration file with a comment, an override and a new key. *)
Definition sample_config_file : gmap str (option str) :=
  list_to_map
    [ (str_of "_comment", Some (str_of "my settings"));
      (str_of "voice", Some (str_of "en-GB-RyanNeural"));
      (str_of "fps", Some (str_of "30")) ].

(** * Properties *)

(** ** Comparisons, [max] and [min] *)

Lemma gt_true (b a : Q) : Py.gt b a = true <-> a < b.
Proof.
  unfold Py.gt. rewrite negb_true_iff, <- not_true_iff_false, Qle_bool_iff.
  split; [apply Qnot_le_lt | apply Qlt_not_le].
Qed.

Lemma gt_false (b a : Q) : Py.gt b a = false <-> b <= a.
Proof.
  unfold Py.gt. rewrite negb_false_iff. apply Qle_bool_iff.
Qed.

Lemma max_lower_l (a b : Q) : a <= Py.max a b.
Proof.
  unfold Py.max. destruct (Py.gt b a) eqn:E; [|lra].
  apply gt_true in E. lra.
Qed.

Lemma max_lower_r (a b : Q) : b <= Py.max a b.
Proof.
  unfold Py.max. destruct (Py.gt b a) eqn:E; [lra|].
  now apply gt_false in E.
Qed.

Lemma max_Qmax (a b : Q) : Py.max a b == Qmax a b.
Proof.
  unfold Py.max. destruct (Py.gt b a) eqn:E.
  - apply gt_true in E. rewrite Q.max_r; [reflexivity | lra].
  - apply gt_false in E. now rewrite Q.max_l.
Qed.

Lemma max_of_le (a b : Q) : a <= b -> Py.max a b == b.
Proof. intros H. rewrite max_Qmax. now apply Q.max_r. Qed.

Lemma max_min_clamp (x lo hi : Q) :
  lo <= hi -> Py.max lo (Py.min hi x) == clamp x lo hi.
Proof.
  intros Hlh. unfold Py.max, Py.min, clamp.
  destruct (Py.gt hi x) eqn:E1.
  - apply gt_true in E1. destruct (Py.gt x lo) eqn:E2.
    + apply gt_true in E2.
      destruct (Py.gt lo x) eqn:E3; [apply gt_true in E3; lra|].
      destruct (Py.gt x hi) eqn:E4; [apply gt_true in E4; lra|]. reflexivity.
    + apply gt_false in E2.
      destruct (Py.gt lo x) eqn:E3; [reflexivity|]. apply gt_false in E3.
      destruct (Py.gt x hi) eqn:E4; [apply gt_true in E4|]; lra.
  - apply gt_false in E1. destruct (Py.gt hi lo) eqn:E2.
    + apply gt_true in E2.
      destruct (Py.gt lo x) eqn:E3; [apply gt_true in E3; lra|].
      destruct (Py.gt x hi) eqn:E4; [reflexivity|]. apply gt_false in E4. lra.
    + apply gt_false in E2.
      destruct (Py.gt lo x) eqn:E3; [reflexivity|]. apply gt_false in E3.
      destruct (Py.gt x hi) eqn:E4; [apply gt_true in E4|apply gt_false in E4];
        lra.
Qed.

Lemma gt_proper (a a' b b' : Q) :
  a == a' -> b == b' -> Py.gt a b = Py.gt a' b'.
Proof. intros Ha Hb. unfold Py.gt. now rewrite Ha, Hb. Qed.

(** ** The overlap resolver *)

Section Overlap.

Implicit Types (segments : list RawCue) (i : nat).

Lemma fix_lookup segments i :
  _fix_timing_overlaps segments !! i
  = fix_segment segments i <$> segments !! i.
Proof.
  unfold _fix_timing_overlaps. destruct segments as [|s0 rest].
  - now rewrite lookup_nil.
  - apply list_lookup_imap.
Qed.

Lemma fix_length segments :
  length (_fix_timing_overlaps segments) = length segments.
Proof.
  unfold _fix_timing_overlaps. destruct segments; [done|].
  apply length_imap.
Qed.

Lemma spec_resolve_lookup segments i :
  spec_resolve segments !! i
  = (fun cue => {| cue_text := seg_text cue; cue_start := seg_start cue;
                   cue_duration := spec_duration cue (segments !! S i) |})
    <$> segments !! i.
Proof.
  revert i. induction segments as [|c rest IH]; intros i; [done|].
  destruct i as [|i]; simpl.
  - now destruct rest.
  - apply IH.
Qed.

(** The duration the code emits for cue [i], as the design document
    computes it from the cue and its successor. *)
Lemma fix_segment_duration segments i cue :
  segments !! i = Some cue ->
  cue_duration (fix_segment segments i cue)
  == spec_duration cue (segments !! S i).
Proof.
  intros Hi. unfold fix_segment, spec_duration. cbn [cue_duration].
  assert (Hc : Py.max min_display_time
                 (Py.min max_display_time (seg_end cue - seg_start cue))
               == clamp (seg_end cue - seg_start cue)
                    min_display_time max_display_time).
  { apply max_min_clamp. unfold min_display_time, max_display_time. lra. }
  assert (Hfloor : forall d d', d == d' ->
            Py.max min_display_time d == Qmax min_display_time d').
  { intros d d' Hd. rewrite max_Qmax. now apply Q.max_compat. }
  replace (i + 1)%nat with (S i) by lia.
  case_bool_decide as Hlt.
  - destruct (segments !! S i) as [next|] eqn:Hn; [|now apply Hfloor].
    rewrite (gt_proper _ (seg_start cue + clamp (seg_end cue - seg_start cue)
               min_display_time max_display_time) _
               (seg_start next - min_gap_between_text))
      by (rewrite ?Hc; reflexivity).
    destruct (Py.gt _ _); apply Hfloor; [apply max_Qmax | exact Hc].
  - rewrite (proj2 (lookup_ge_None segments (S i))) by lia.
    now apply Hfloor.
Qed.

Lemma fix_segment_min_display segments i cue :
  min_display_time <= cue_duration (fix_segment segments i cue).
Proof. apply max_lower_l. Qed.

End Overlap.

(** C1. [_fix_timing_overlaps] is the per-cue algorithm of section 4.2:
    cue by cue, in order, it emits the text and start of the raw cue and,
    up to numeric equality, the duration
    [max(1.0, d)] where [d] is [clamp(end - start, 1.0, 3.0)], replaced by
    [max(0.5, (next.start - 0.1) - start)] when a next cue exists and
    [start + d > next.start - 0.1]; the last cue has no successor
    constraint and gets [max(1.0, clamp(end - start, 1.0, 3.0))]. *)
Theorem fix_timing_overlaps_refines_spec (segments : list RawCue) :
  Forall2 same_cue (_fix_timing_overlaps segments) (spec_resolve segments)
  /\ (forall cue, last segments = Some cue ->
        exists out, last (_fix_timing_overlaps segments) = Some out /\
          cue_duration out
          == Qmax 1.0 (clamp (seg_end cue - seg_start cue) 1.0 3.0)).
Proof.
  split.
  - apply Forall2_same_length_lookup. split.
    + rewrite fix_length. clear. induction segments; simpl; congruence.
    + intros i a b. rewrite fix_lookup, spec_resolve_lookup.
      destruct (segments !! i) as [cue|] eqn:Hi; [|done]. simpl.
      intros [= <-] [= <-]. repeat split.
      cbn [cue_duration]. now apply fix_segment_duration.
  - intros cue Hlast. rewrite last_lookup in Hlast.
    rewrite last_lookup, fix_length, fix_lookup, Hlast. simpl.
    eexists. split; [reflexivity|].
    rewrite fix_segment_duration by exact Hlast.
    rewrite (proj2 (lookup_ge_None segments _)); [reflexivity|].
    apply lookup_lt_Some in Hlast. lia.
Qed.

Lemma fix_timing_overlaps_refines_spec_witness :
  exists out,
    last (_fix_timing_overlaps spaced_cues) = Some out
    /\ cue_duration out == Qmax 1.0 (clamp (2 - 1.25) 1.0 3.0).
Proof.
  apply (proj2 (fix_timing_overlaps_refines_spec spaced_cues)
           (mkRawCue (list_ascii_of_string "never sleep") 1.25 2)).
  reflexivity.
Defined.

(** C2. The output has as many cues as the input, and cue [i] of the
    output carries the start and the text of cue [i] of the input. *)
Theorem fix_timing_overlaps_preserves (segments : list RawCue) :
  length (_fix_timing_overlaps segments) = length segments
  /\ (forall i raw, segments !! i = Some raw ->
        exists out, _fix_timing_overlaps segments !! i = Some out /\
          cue_start out = seg_start raw /\ cue_text out = seg_text raw).
Proof.
  split; [apply fix_length|].
  intros i raw Hi. rewrite fix_lookup, Hi. simpl. eauto.
Qed.

Lemma fix_timing_overlaps_preserves_witness :
  exists out,
    _fix_timing_overlaps spaced_cues !! 1%nat = Some out
    /\ cue_start out = 1.25
    /\ cue_text out = list_ascii_of_string "never sleep".
Proof.
  apply (proj2 (fix_timing_overlaps_preserves spaced_cues) 1%nat
           (mkRawCue (list_ascii_of_string "never sleep") 1.25 2)).
  reflexivity.
Defined.

(** C3. Every emitted duration is at least 0.5, and at least
    [min_display_time] when the next cue starts at least
    [min_display_time + min_gap_between_text] after this one. *)
Theorem fix_timing_overlaps_duration_bound (segments : list RawCue) :
  (forall i out, _fix_timing_overlaps segments !! i = Some out ->
     0.5 <= cue_duration out)
  /\ (forall i raw next out,
        segments !! i = Some raw -> segments !! (i + 1)%nat = Some next ->
        _fix_timing_overlaps segments !! i = Some out ->
        min_display_time + min_gap_between_text
          <= seg_start next - seg_start raw ->
        min_display_time <= cue_duration out).
Proof.
  split.
  - intros i out. rewrite fix_lookup.
    destruct (segments !! i) as [cue|]; [|done]. intros [= <-].
    pose proof (fix_segment_min_display segments i cue) as H.
    unfold min_display_time in H. lra.
  - intros i raw next out Hi _. rewrite fix_lookup, Hi. intros [= <-] _.
    apply fix_segment_min_display.
Qed.

Lemma fix_timing_overlaps_duration_bound_witness :
  0.5 <= cue_duration
           (fix_segment spaced_cues 0
              (mkRawCue (list_ascii_of_string "Sharks") 0 1.2))
  /\ min_display_time
     <= cue_duration
          (fix_segment spaced_cues 0
             (mkRawCue (list_ascii_of_string "Sharks") 0 1.2)).
Proof.
  split.
  - apply (proj1 (fix_timing_overlaps_duration_bound spaced_cues) 0%nat).
    reflexivity.
  - apply (proj2 (fix_timing_overlaps_duration_bound spaced_cues) 0%nat
             (mkRawCue (list_ascii_of_string "Sharks") 0 1.2)
             (mkRawCue (list_ascii_of_string "never sleep") 1.25 2)).
    + reflexivity.
    + reflexivity.
    + reflexivity.
    + vm_compute. discriminate.
Defined.

Lemma max_lub (a b c : Q) : a <= c -> b <= c -> Py.max a b <= c.
Proof. intros Ha Hb. unfold Py.max. now destruct (Py.gt b a). Qed.

Lemma sorted_by_start_pair (x y : RawCue) :
  seg_start x <= seg_start y -> sorted_by_start [x; y].
Proof.
  intros Hxy i a b Ha Hb. destruct i as [|[|i]]; [|done..].
  injection Ha as <-. injection Hb as <-. exact Hxy.
Qed.

(** C4, as stated, fails: on two cues starting 0.3s apart the first cue is
    shown for 1.0s and is still on screen when the second one starts. *)
Lemma no_visual_overlap_counterexample :
  sorted_by_start close_cues
  /\ ~ no_visual_overlap (_fix_timing_overlaps close_cues).
Proof.
  split.
  - apply sorted_by_start_pair. vm_compute. discriminate.
  - intros H. specialize (H 0%nat _ _ eq_refl eq_refl).
    vm_compute in H. now apply H.
Qed.

(** C4, amended. On an input sorted by start, a cue whose successor starts
    at least [min_display_time + min_gap_between_text] (1.1s) after it has
    left the screen when the successor starts. *)
Theorem fix_timing_overlaps_no_overlap_with_slack
    (segments : list RawCue) (i : nat) (raw next : RawCue) (a b : TimedCue) :
  sorted_by_start segments ->
  segments !! i = Some raw -> segments !! (i + 1)%nat = Some next ->
  min_display_time + min_gap_between_text <= seg_start next - seg_start raw ->
  _fix_timing_overlaps segments !! i = Some a ->
  _fix_timing_overlaps segments !! (i + 1)%nat = Some b ->
  cue_start a + cue_duration a <= cue_start b.
Proof.
  intros _ Hi Hn Hslack. rewrite !fix_lookup, Hi, Hn. simpl.
  intros [= <-] [= <-]. unfold fix_segment at 1 2. cbn [cue_start cue_duration].
  rewrite Hn. rewrite bool_decide_true
    by (apply lookup_lt_Some in Hn; lia).
  unfold min_display_time, min_gap_between_text in *.
  set (d := Py.max 1.0 (Py.min max_display_time (seg_end raw - seg_start raw))).
  cut (Py.max 1.0
         (if Py.gt (seg_start raw + d) (seg_start next - 0.1)
          then Py.max 0.5 (seg_start next - 0.1 - seg_start raw) else d)
       <= seg_start next - 0.1 - seg_start raw).
  { unfold fix_segment. cbn [cue_start]. lra. }
  apply max_lub; [lra|].
  destruct (Py.gt _ _) eqn:E.
  - apply max_lub; lra.
  - apply gt_false in E. lra.
Qed.

Lemma fix_timing_overlaps_no_overlap_with_slack_witness :
  exists a b,
    _fix_timing_overlaps spaced_cues !! 0%nat = Some a /\
    _fix_timing_overlaps spaced_cues !! 1%nat = Some b /\
    cue_start a + cue_duration a <= cue_start b.
Proof.
  eexists _, _. split; [reflexivity|]. split; [reflexivity|].
  apply (fix_timing_overlaps_no_overlap_with_slack spaced_cues 0
           (mkRawCue (list_ascii_of_string "Sharks") 0 1.2)
           (mkRawCue (list_ascii_of_string "never sleep") 1.25 2)).
  - apply sorted_by_start_pair. vm_compute. discriminate.
  - reflexivity.
  - reflexivity.
  - vm_compute. discriminate.
  - reflexivity.
  - reflexivity.
Defined.

(** C5 is not what the code does.  On two cues starting 0.8s apart the
    shrink step lowers the first duration to [0.8 - 0.1 - 0 = 0.7], inside
    [[0.5, 1.0)], and the final [max(min_display_time, ...)] raises it back
    to 1.0: the emitted durations are 1.0 and 1.2.  No cue of any input is
    given less than [min_display_time]. *)
Theorem relaxed_duration_is_refloored :
  Py.max 0.5 (0.8 - min_gap_between_text - 0) == 0.7
  /\ (exists a b, _fix_timing_overlaps tight_cues = [a; b]
        /\ cue_duration a == 1.0 /\ cue_duration b == 1.2)
  /\ (forall segments i cue,
        1.0 <= cue_duration (fix_segment segments i cue)).
Proof.
  split; [reflexivity|]. split.
  - eexists _, _. split; [reflexivity|]. split; vm_compute; reflexivity.
  - apply fix_segment_min_display.
Qed.

(** The end-to-end scenario of the design document: the first cue is
    shrunk to 1.15s, short of the second one's start at 1.25s, and the
    second, 0.75s long, is raised to 1.0s. *)
Example fix_timing_overlaps_scenario :
  exists a b, _fix_timing_overlaps spaced_cues = [a; b]
    /\ cue_start a = 0 /\ cue_duration a == 1.15
    /\ cue_start b = 1.25 /\ cue_duration b == 1.0.
Proof.
  eexists _, _. split; [reflexivity|].
  repeat split; vm_compute; reflexivity.
Qed.

(** ** Word grouping *)

Section Grouping.

Implicit Types (words cur : list Word) (groups : list (list Word)).

(** One turn of the loop either closes the open group, by one of the two
    rules, or keeps it open with fewer than 7 words. *)
Lemma group_step_cases groups cur w :
  (length cur < 7)%nat ->
  (group_step (groups, cur) w = (groups ++ [cur ++ [w]], [])
   /\ closed_in_loop (cur ++ [w]))
  \/ (group_step (groups, cur) w = (groups, cur ++ [w])
      /\ (length (cur ++ [w]) < 7)%nat).
Proof.
  intros Hcur.
  assert (Hlen : length (cur ++ [w]) = S (length cur))
    by (rewrite length_app; simpl; lia).
  unfold group_step, closed_in_loop.
  case_bool_decide as H7; [left; split; [done|left; lia]|].
  destruct (_ && _) eqn:Hp; [|right; split; [done|lia]].
  apply andb_true_iff in Hp as [H4 Hp]. apply bool_decide_eq_true in H4.
  left. split; [done|]. right. split; [lia|].
  exists w. split; [apply last_snoc | done].
Qed.

(** The loop invariant of [_create_word_groups]: the closed groups followed
    by the open group spell the words consumed so far, the open group has
    fewer than 7 words, and each closed group was closed by one of the two
    rules. *)
Lemma group_loop_invariant words : forall groups cur,
  (length cur < 7)%nat ->
  Forall closed_in_loop groups ->
  let st := fold_left group_step words (groups, cur) in
  concat st.1 ++ st.2 = concat groups ++ cur ++ words
  /\ (length st.2 < 7)%nat
  /\ Forall closed_in_loop st.1.
Proof.
  induction words as [|w words IH]; intros groups cur Hcur Hcl;
    cbn [fold_left].
  - simpl. now rewrite app_nil_r.
  - destruct (group_step_cases groups cur w Hcur) as [[-> Hw]|[-> Hlt]].
    + destruct (IH (groups ++ [cur ++ [w]]) []) as (Hc & Hl & Hf).
      * simpl. lia.
      * apply Forall_app. split; [done|]. now constructor.
      * split; [|done]. rewrite Hc, concat_app. simpl.
        now rewrite !app_nil_r, <- !app_assoc.
    + destruct (IH groups (cur ++ [w])) as (Hc & Hl & Hf); [lia|done|].
      split; [|done]. now rewrite Hc, <- !app_assoc.
Qed.

Lemma closed_in_loop_length g : closed_in_loop g -> (4 <= length g)%nat.
Proof. intros [->|[H _]]; lia. Qed.

(** What the invariant gives for the returned list: it is the list of
    closed groups, followed by the open group when that is not empty. *)
Lemma create_word_groups_shape words :
  exists groups cur,
    Forall closed_in_loop groups /\ (length cur < 7)%nat
    /\ concat groups ++ cur = words
    /\ _create_word_groups words
       = groups ++ match cur with [] => [] | _ => [cur] end.
Proof.
  pose proof (group_loop_invariant words [] []) as H. simpl in H.
  destruct H as (Hc & Hl & Hf); [lia|done|].
  unfold _create_word_groups.
  destruct (fold_left group_step words ([], [])) as [groups cur].
  simpl in *. exists groups, cur. repeat split; try done.
  destruct cur; [now rewrite app_nil_r | done].
Qed.

End Grouping.

(** C6. The groups, concatenated in order, are the input words; every
    group has between 1 and 7 words; no words give no groups. *)
Theorem create_word_groups_complete (words : list Word) :
  concat (_create_word_groups words) = words
  /\ Forall (fun g => (1 <= length g <= 7)%nat) (_create_word_groups words)
  /\ _create_word_groups [] = [].
Proof.
  destruct (create_word_groups_shape words)
    as (groups & cur & Hcl & Hlen & Hcat & ->).
  split; [|split; [|reflexivity]].
  - rewrite concat_app, <- Hcat. f_equal.
    destruct cur; simpl; [done | now rewrite app_nil_r].
  - apply Forall_app. split.
    + eapply Forall_impl; [exact Hcl|]. intros g Hg.
      destruct Hg as [->|[? _]]; lia.
    + destruct cur; constructor; [|done]. simpl in *. lia.
Qed.

(** C7. A group that is not the last one and has fewer than 7 words has at
    least 4 words, and the trimmed text of its last word ends with one of
    [. ! ? ,]: punctuation never closes a group of fewer than 4 words. *)
Theorem create_word_groups_boundary
    (words : list Word) (i : nat) (g : list Word) :
  _create_word_groups words !! i = Some g ->
  (i + 1 < length (_create_word_groups words))%nat ->
  (length g < 7)%nat ->
  (4 <= length g)%nat
  /\ exists w, last g = Some w
       /\ Py.endswith_any (Py.strip (word w)) group_punctuation = true.
Proof.
  destruct (create_word_groups_shape words)
    as (groups & cur & Hcl & _ & _ & ->).
  intros Hg Hi Hlen.
  assert (Hin : groups !! i = Some g).
  { rewrite lookup_app_l in Hg; [done|].
    rewrite length_app in Hi. destruct cur; simpl in Hi; lia. }
  eapply Forall_lookup_1 in Hcl; [|exact Hin].
  destruct Hcl as [H7|[H4 Hw]]; [lia|]. split; [lia | exact Hw].
Qed.

Lemma create_word_groups_boundary_witness :
  (4 <= length (map plain_word ["The"; "quick"; "brown"; "fox,"]%string))%nat
  /\ exists w,
       last (map plain_word ["The"; "quick"; "brown"; "fox,"]%string) = Some w
       /\ Py.endswith_any (Py.strip (word w)) group_punctuation = true.
Proof.
  apply (create_word_groups_boundary fox_words 0).
  - reflexivity.
  - vm_compute. lia.
  - vm_compute. lia.
Defined.

(** The example of the design document: four words, the last ending in a
    comma, close as one group. *)
Example create_word_groups_fox :
  _create_word_groups fox_words
  = [ map plain_word ["The"; "quick"; "brown"; "fox,"]%string;
      map plain_word ["jumps"]%string ].
Proof. reflexivity. Qed.

(** ** Background framing *)

Lemma truediv_int_defined (a b : Z) :
  b <> 0%Z -> Py.truediv_int a b = Some (inject_Z a / inject_Z b).
Proof.
  intros Hb. unfold Py.truediv_int.
  now destruct (Z.eqb_spec b 0).
Qed.

Section Background.

(** [random.uniform(a, b)] yields a value between [a] and [b]. *)
Variable uniform : Q -> Q -> Q.
Hypothesis uniform_range : forall a b, a <= b -> a <= uniform a b <= b.

Lemma resized_duration (video : VideoFileClip) :
  clip_duration
    (if Py.gt (inject_Z (video_w video) / inject_Z (video_h video)) (9 / 16)
     then Resized target_height
            (Cropped (video_w video / 2 - Z.quot (video_h video * 9) 16 / 2)
                     (video_w video / 2 + Z.quot (video_h video * 9) 16 / 2)
                     (Source video))
     else Resized target_height (Source video))
  = video_duration video.
Proof. now destruct (Py.gt _ _). Qed.

(** C9. For a source with a frame height other than 0: when the source
    is at least as long as the target, the function cuts the window
    [[start_offset, start_offset + target_duration)] with [0 <=
    start_offset] and [start_offset + target_duration <= source_duration],
    and [start_offset = 0] when the two durations are equal; when the
    source is shorter, the call of [loop] raises [AttributeError] on the
    resized clip, whose duration is still that of the source: no clip is
    returned, of the target duration or any other. *)
Theorem background_window_or_raise
    (video : VideoFileClip) (target_duration : Q) :
  video_h video <> 0%Z ->
  (target_duration <= video_duration video ->
     exists start_offset clip,
       _resize_to_shorts_format_with_random_start uniform video target_duration
       = Framed (Subclipped start_offset (start_offset + target_duration)
                   clip)
       /\ 0 <= start_offset
       /\ start_offset + target_duration <= video_duration video
       /\ (video_duration video == target_duration -> start_offset = 0))
  /\ (video_duration video < target_duration ->
        exists clip,
          _resize_to_shorts_format_with_random_start uniform video
            target_duration
          = AttributeError clip
          /\ clip_duration clip = video_duration video
          /\ forall returned,
               _resize_to_shorts_format_with_random_start uniform video
                 target_duration
               <> Framed returned).
Proof.
  intros Hh. unfold _resize_to_shorts_format_with_random_start.
  rewrite truediv_int_defined by exact Hh.
  rewrite resized_duration. unfold Py.lt. split; intros HD.
  - rewrite (proj2 (gt_false _ _)) by exact HD.
    destruct (Py.le _ 0) eqn:E; unfold Py.le in E.
    + apply Qle_bool_iff in E. eexists _, _. split; [reflexivity|].
      repeat split; lra.
    + assert (Hpos : 0 < video_duration video - target_duration).
      { apply Qnot_le_lt. intros H. apply Qle_bool_iff in H. congruence. }
      destruct (uniform_range 0 (video_duration video - target_duration))
        as [Hlo Hhi]; [lra|].
      eexists _, _. split; [reflexivity|]. repeat split; lra.
  - rewrite (proj2 (gt_true _ _)) by exact HD.
    eexists. split; [reflexivity|]. split; [apply resized_duration|].
    discriminate.
Qed.

End Background.

Lemma uniform_mid_range (a b : Q) : a <= b -> a <= uniform_mid a b <= b.
Proof. unfold uniform_mid. intros H. split; lra. Qed.

Lemma background_window_or_raise_witness :
  (exists start_offset clip,
     _resize_to_shorts_format_with_random_start uniform_mid
       (mkVideo 1920 1080 60) 30
     = Framed (Subclipped start_offset (start_offset + 30) clip)
     /\ 0 <= start_offset /\ start_offset + 30 <= 60
     /\ (60 == 30 -> start_offset = 0))
  /\ (exists clip,
        _resize_to_shorts_format_with_random_start uniform_mid
          short_video 30
        = AttributeError clip
        /\ clip_duration clip = 20
        /\ forall returned,
             _resize_to_shorts_format_with_random_start uniform_mid
               short_video 30
             <> Framed returned).
Proof.
  split.
  - apply (proj1 (background_window_or_raise uniform_mid uniform_mid_range
                    (mkVideo 1920 1080 60) 30 ltac:(discriminate))).
    vm_compute. discriminate.
  - apply (proj2 (background_window_or_raise uniform_mid uniform_mid_range
                    short_video 30 ltac:(discriminate))).
    reflexivity.
Defined.

(** A source without rows: the aspect ratio cannot be computed. *)
Example background_zero_height (uniform : Q -> Q -> Q) (duration : Q) :
  _resize_to_shorts_format_with_random_start uniform (mkVideo 1920 0 60)
    duration
  = ZeroDivisionError.
Proof. reflexivity. Qed.

(** ** Duplicate detection *)

Section Duplicates.

Implicit Types (new_fact topic existing : str) (facts_data : FactsData).

Lemma truediv_defined (a b : nat) :
  (0 < b)%nat ->
  Py.truediv a b = Some (inject_Z (Z.of_nat a) / inject_Z (Z.of_nat b)).
Proof. intros Hb. destruct b; [lia | reflexivity]. Qed.

(** The loop returns, and it returns [True] exactly when some fact of the
    list is too similar to the new one. *)
Lemma duplicate_loop_spec new_fact (existing_facts : list str) :
  exists b,
    duplicate_loop (word_set new_fact) existing_facts = Some b
    /\ (b = true <-> Exists (too_similar new_fact) existing_facts).
Proof.
  induction existing_facts as [|existing rest (b & Hb & Hiff)].
  - exists false. split; [done|]. split; [done|]. intros H. inversion H.
  - cbn [duplicate_loop]. case_bool_decide as Hu.
    + rewrite truediv_defined by exact Hu. cbn [mbind option_bind].
      destruct (Py.gt _ SIMILARITY_THRESHOLD) eqn:E.
      * exists true. split; [done|]. split; [|done]. intros _.
        left. split; [exact Hu|]. now apply gt_true in E.
      * exists b. split; [done|]. rewrite Hiff. split.
        -- now right.
        -- intros H. inversion H as [? ? [_ Hs]|]; [|done]. subst.
           apply gt_false in E. apply Qle_not_lt in E. now destruct E.
    + exists b. split; [done|]. rewrite Hiff. split.
      * now right.
      * intros H. inversion H as [? ? [Hpos _]|]; [|done]. now subst.
Qed.

End Duplicates.

(** C10. [is_fact_duplicate] returns for every new fact and topic: the
    division is only reached with a non-empty union, so it never fails; a
    stored fact whose word set is empty, like the new fact's, is skipped and
    the search goes on with the next one; and the answer is [True] only if
    (and in fact exactly when) some stored fact of the topic has a Jaccard
    similarity above 0.7 with the new fact. *)
Theorem is_fact_duplicate_total
    (facts_data : FactsData) (new_fact topic : str) :
  exists b,
    is_fact_duplicate facts_data new_fact topic = Some b
    /\ (b = true <->
        exists existing,
          existing ∈ get_existing_facts facts_data topic
          /\ too_similar new_fact existing)
    /\ (forall existing rest,
          word_set new_fact = ∅ -> word_set existing = ∅ ->
          duplicate_loop (word_set new_fact) (existing :: rest)
          = duplicate_loop (word_set new_fact) rest).
Proof.
  unfold is_fact_duplicate.
  destruct (duplicate_loop_spec new_fact
              (get_existing_facts facts_data topic)) as (b & Hb & Hiff).
  exists b. split; [exact Hb|]. split.
  - rewrite Hiff. apply Exists_exists.
  - intros existing rest Hn He. cbn [duplicate_loop].
    rewrite Hn, He. rewrite bool_decide_false; [done|].
    rewrite union_empty_r_L, size_empty. lia.
Qed.

Lemma is_fact_duplicate_total_witness :
  exists b,
    is_fact_duplicate sample_facts [] (str_of "Animals") = Some b
    /\ (b = true <->
        exists existing,
          existing ∈ get_existing_facts sample_facts (str_of "Animals")
          /\ too_similar [] existing)
    /\ duplicate_loop (word_set []) [[]] = duplicate_loop (word_set []) [].
Proof.
  destruct (is_fact_duplicate_total sample_facts [] (str_of "Animals"))
    as (b & Hb & Hiff & Hskip).
  exists b. split; [exact Hb|]. split; [exact Hiff|].
  apply Hskip; reflexivity.
Defined.

(** A fact that repeats a stored one word for word, in another case, is a
    duplicate; on an empty history nothing is. *)
Example is_fact_duplicate_same_words :
  is_fact_duplicate sample_facts (str_of "OCTOPUSES have three  hearts")
    (str_of "Animals") = Some true.
Proof. vm_compute. reflexivity. Qed.

Example is_fact_duplicate_other_topic :
  is_fact_duplicate sample_facts (str_of "Octopuses have three hearts")
    (str_of "Sports") = Some false.
Proof. vm_compute. reflexivity. Qed.

(** ** Splitting on whitespace *)

Section Split.

Implicit Types (c : ascii) (s t cur : str).

Lemma split_go_nil cur : Py.split_go cur [] = flush cur.
Proof. reflexivity. Qed.

Lemma split_go_space c cur s :
  Py.isspace c = true ->
  Py.split_go cur (c :: s) = flush cur ++ Py.split s.
Proof. intros Hc. simpl. rewrite Hc. now destruct cur. Qed.

Lemma split_go_app_space c s : forall cur t,
  Py.isspace c = true ->
  Py.split_go cur (s ++ c :: t) = Py.split_go cur s ++ Py.split t.
Proof.
  induction s as [|a s IH]; intros cur t Hc.
  - rewrite app_nil_l. now rewrite split_go_space.
  - simpl. destruct (Py.isspace a).
    + destruct cur; simpl; now rewrite IH.
    + now apply IH.
Qed.

(** A whitespace character separates: the words on its two sides are found
    independently. *)
Lemma split_app_space c s t :
  Py.isspace c = true ->
  Py.split (s ++ c :: t) = Py.split s ++ Py.split t.
Proof. apply split_go_app_space. Qed.

(** A string without whitespace is one word. *)
Lemma split_go_word s : forall cur,
  Forall (fun c => Py.isspace c = false) s ->
  Py.split_go cur s = flush (cur ++ s).
Proof.
  induction s as [|c s IH]; intros cur Hs.
  - now rewrite app_nil_r.
  - inversion Hs as [|? ? Hc Hs']; subst. simpl. rewrite Hc.
    rewrite IH by exact Hs'. now rewrite <- app_assoc.
Qed.

Lemma split_blank s : blank s -> Py.split s = [].
Proof.
  induction 1 as [|c s Hc _ IH]; [done|].
  unfold Py.split. now rewrite split_go_space.
Qed.

Lemma split_blank_prefix s t : blank s -> Py.split (s ++ t) = Py.split t.
Proof.
  induction 1 as [|c s Hc _ IH]; [done|].
  unfold Py.split. simpl. now rewrite Hc.
Qed.

Lemma split_blank_suffix s t : blank t -> Py.split (s ++ t) = Py.split s.
Proof.
  intros Ht. destruct Ht as [|c t Hc Ht]; [now rewrite app_nil_r|].
  rewrite split_app_space by done.
  now rewrite (split_blank t), app_nil_r.
Qed.

Lemma split_app_boundary s t :
  word_boundary s t -> Py.split (s ++ t) = Py.split s ++ Py.split t.
Proof.
  intros [(s' & c & -> & Hc)|(c & t' & -> & Hc)].
  - rewrite <- app_assoc. simpl. rewrite !split_app_space by done.
    rewrite (split_blank []), app_nil_r; [done | constructor].
  - rewrite split_app_space by done. f_equal.
    unfold Py.split. simpl. now rewrite Hc.
Qed.

(** Replacing whitespace by whitespace, character by character, keeps the
    words. *)
Lemma split_go_map (f : ascii -> ascii) s :
  (forall c, Py.isspace c = true -> Py.isspace (f c) = true) ->
  (forall c, Py.isspace c = false -> f c = c) ->
  forall cur, Py.split_go cur (map f s) = Py.split_go cur s.
Proof.
  intros Hsp Hid. induction s as [|c s IH]; intros cur; [done|].
  simpl. destruct (Py.isspace c) eqn:Hc.
  - rewrite (Hsp c Hc). destruct cur; now rewrite IH.
  - rewrite (Hid c Hc), Hc. apply IH.
Qed.

(** *** [join] and [split(sep)] *)

Lemma split_join c (pieces : list str) :
  Py.isspace c = true ->
  Py.split (Py.join [c] pieces) = concat (map Py.split pieces).
Proof.
  intros Hc. induction pieces as [|p pieces IH]; [done|].
  destruct pieces as [|q pieces].
  - simpl. now rewrite app_nil_r.
  - change (Py.join [c] (p :: q :: pieces))
      with (p ++ c :: Py.join [c] (q :: pieces)).
    rewrite split_app_space by done. now rewrite IH.
Qed.

Lemma split_on_go_nonempty sep s : forall cur, Py.split_on_go sep cur s <> [].
Proof.
  induction s as [|c s IH]; intros cur; simpl; [done|].
  case_bool_decide; [done | apply IH].
Qed.

(** Splitting at a whitespace separator and joining with another one keeps
    the words. *)
Lemma split_join_split_on c sep s :
  Py.isspace c = true -> Py.isspace sep = true ->
  forall cur,
    Py.split (Py.join [c] (Py.split_on_go sep cur s)) = Py.split (cur ++ s).
Proof.
  intros Hc Hsep. induction s as [|a s IH]; intros cur.
  - simpl. now rewrite app_nil_r.
  - simpl. case_bool_decide as Ha.
    + subst a. pose proof (split_on_go_nonempty sep s []) as Hne.
      specialize (IH []). simpl in IH.
      destruct (Py.split_on_go sep [] s) as [|p ps]; [done|].
      change (Py.join [c] (cur :: p :: ps))
        with (cur ++ c :: Py.join [c] (p :: ps)).
      rewrite !split_app_space by done. now rewrite IH.
    + rewrite IH, <- app_assoc. done.
Qed.

Lemma split_on_go_free sep s : forall cur t,
  sep ∉ s ->
  Py.split_on_go sep cur (s ++ t) = Py.split_on_go sep (cur ++ s) t.
Proof.
  induction s as [|a s IH]; intros cur t Hs.
  - now rewrite app_nil_r.
  - simpl. rewrite bool_decide_false by set_solver.
    rewrite IH by set_solver. now rewrite <- app_assoc.
Qed.

(** [sep.join(pieces).split(sep)] gives the pieces back when none of them
    holds the separator. *)
Lemma split_on_join sep (pieces : list str) :
  Forall (fun p => sep ∉ p) pieces ->
  forall p cur,
    sep ∉ p ->
    Py.split_on_go sep cur (Py.join [sep] (p :: pieces))
    = (cur ++ p) :: pieces.
Proof.
  induction 1 as [|q pieces Hq _ IH]; intros p cur Hp.
  - simpl. rewrite <- (app_nil_r p) at 1.
    now rewrite split_on_go_free.
  - change (Py.join [sep] (p :: q :: pieces))
      with (p ++ sep :: Py.join [sep] (q :: pieces)).
    rewrite split_on_go_free by done. cbn [Py.split_on_go].
    rewrite bool_decide_true by done. now rewrite IH.
Qed.

End Split.

(** ** The pieces of [textwrap.wrap] *)

Section Wrap.

Import textwrap.

Implicit Types (c : ascii) (text chunk cur : str) (chunks lines : list str).

Lemma is_whitespace_isspace c : is_whitespace c = true -> Py.isspace c = true.
Proof.
  unfold is_whitespace, _whitespace. rewrite bool_decide_eq_true. intros H.
  repeat (apply elem_of_cons in H as [->|H]; [reflexivity|]).
  now apply elem_of_nil in H.
Qed.

Lemma split_go_spaces (n : nat) cur t :
  (0 < n)%nat ->
  Py.split_go cur (replicate n " "%char ++ t) = flush cur ++ Py.split t.
Proof.
  intros Hn. destruct n as [|n]; [lia|]. simpl replicate.
  rewrite <- app_comm_cons, split_go_space by reflexivity. f_equal.
  apply split_blank_prefix. apply Forall_replicate. reflexivity.
Qed.

Lemma split_go_expandtabs text : forall column cur,
  Py.split_go cur (expandtabs column text) = Py.split_go cur text.
Proof.
  induction text as [|c text IH]; intros column cur; [done|].
  cbn [expandtabs]. case_bool_decide as Htab.
  - subst c. rewrite split_go_spaces.
    + rewrite split_go_space by reflexivity. f_equal. apply IH.
    + unfold tabsize.
      pose proof (Nat.mod_upper_bound column 8). lia.
  - assert (Hstep : forall column',
              Py.split_go cur (c :: expandtabs column' text)
              = Py.split_go cur (c :: text)).
    { intros column'. simpl. destruct (Py.isspace c).
      - destruct cur; now rewrite IH.
      - apply IH. }
    destruct (_ || _); apply Hstep.
Qed.

(** Expanding tabs and turning whitespace into spaces keeps the words. *)
Lemma split_munge_whitespace text :
  Py.split (_munge_whitespace text) = Py.split text.
Proof.
  unfold _munge_whitespace, Py.split. rewrite split_go_map.
  - apply split_go_expandtabs.
  - intros c Hc. now destruct (is_whitespace c).
  - intros c Hc. destruct (is_whitespace c) eqn:Hw; [|done].
    apply is_whitespace_isspace in Hw. congruence.
Qed.

(** After [_munge_whitespace] the only whitespace of [textwrap] left is the
    space: there is no line feed in the text. *)
Lemma munge_whitespace_no_newline text :
  "010"%char ∉ _munge_whitespace text.
Proof.
  unfold _munge_whitespace. intros H.
  apply list_elem_of_fmap in H as (d & Hd & _).
  destruct (is_whitespace d) eqn:Hw; [done|]. now subst d.
Qed.

Lemma expandtabs_chars text : forall column c,
  c ∈ expandtabs column text -> c = " "%char \/ c ∈ text.
Proof.
  induction text as [|d text IH]; intros column c;
    [intros H; now apply elem_of_nil in H|].
  cbn [expandtabs]. case_bool_decide as Htab.
  - intros H. apply elem_of_app in H as [H|H].
    + left. now apply elem_of_replicate in H as [-> _].
    + destruct (IH _ _ H) as [->|Hin]; [now left|]. right. now right.
  - assert (Hstep : forall column',
              c ∈ d :: expandtabs column' text -> c = " "%char \/ c ∈ d :: text).
    { intros column' H. apply elem_of_cons in H as [->|H].
      - right. left.
      - destruct (IH _ _ H) as [->|Hin]; [now left|]. right. now right. }
    destruct (_ || _); apply Hstep.
Qed.

(** What [_munge_whitespace] leaves of a text: its characters that are not
    in [_whitespace], and spaces. *)
Lemma munge_whitespace_chars text c :
  c ∈ _munge_whitespace text -> c = " "%char \/ c ∈ text.
Proof.
  unfold _munge_whitespace. intros H.
  apply list_elem_of_fmap in H as (d & -> & Hd).
  destruct (is_whitespace d); [now left|].
  now apply expandtabs_chars in Hd.
Qed.

(** In a text whose whitespace is that of [textwrap], a line that cannot
    be broken is a single word. *)
Lemma unbreakable_single_word text line :
  breakable_whitespace text = true ->
  (forall c, c ∈ line -> c ∈ _munge_whitespace text) ->
  unbreakable line -> single_word line.
Proof.
  intros Htext Hin [Hne Hline]. unfold single_word, Py.split.
  rewrite split_go_word.
  - rewrite app_nil_l. now destruct line.
  - apply Forall_forall. intros c Hc.
    rewrite Forall_forall in Hline. specialize (Hline c Hc).
    destruct (munge_whitespace_chars text c (Hin c Hc)) as [->|Hc'];
      [discriminate|].
    unfold breakable_whitespace in Htext.
    rewrite forallb_forall in Htext.
    apply list_elem_of_In in Hc'. specialize (Htext c Hc').
    rewrite Hline in Htext. now destruct (Py.isspace c).
Qed.

(** *** [strip] and blank chunks *)

Lemma lstrip_blank cur : blank cur -> Py.lstrip cur = [].
Proof. induction 1 as [|c s Hc _ IH]; [done|]. simpl. now rewrite Hc. Qed.

Lemma lstrip_nil cur : Py.lstrip cur = [] -> blank cur.
Proof.
  induction cur as [|c s IH]; [constructor|]. simpl.
  destruct (Py.isspace c) eqn:Hc; [|done]. intros H.
  apply Forall_cons. split; [exact Hc | now apply IH].
Qed.

Lemma lstrip_head cur c t : Py.lstrip cur = c :: t -> Py.isspace c = false.
Proof.
  induction cur as [|d s IH]; [done|]. simpl.
  destruct (Py.isspace d) eqn:Hd; [done|]. now intros [= -> _].
Qed.

Lemma is_blank_true chunk : is_blank chunk = true <-> blank chunk.
Proof.
  unfold is_blank, Py.strip, Py.rstrip. split.
  - destruct (rev _) eqn:Hr; [|done]. intros _.
    apply (f_equal (@rev ascii)) in Hr. rewrite rev_involutive in Hr.
    simpl in Hr. apply lstrip_nil in Hr. apply Forall_rev in Hr.
    rewrite rev_involutive in Hr.
    destruct (Py.lstrip chunk) as [|c t] eqn:Hl; [now apply lstrip_nil|].
    apply lstrip_head in Hl. inversion Hr; congruence.
  - intros Hb. now rewrite (lstrip_blank chunk Hb).
Qed.

(** *** The chunks of [_split] *)

Lemma split_runs_concat text : forall cur,
  concat (split_runs cur text) = cur ++ text.
Proof.
  induction text as [|c text IH]; intros cur.
  - simpl. destruct cur; simpl; now rewrite ?app_nil_r.
  - cbn [split_runs]. destruct cur as [|d cur].
    + now rewrite IH.
    + destruct (Bool.eqb _ _).
      * rewrite IH. now rewrite <- app_assoc.
      * simpl. now rewrite IH.
Qed.

Lemma split_runs_runs text : forall cur,
  run cur ->
  runs (split_runs cur text)
  /\ exists first rest,
       split_runs cur text = first :: rest /\ kind first = kind cur.
Proof.
  induction text as [|c text IH]; intros cur [Hne Hall].
  - destruct cur as [|d cur]; [done|]. simpl. split; [|by eauto].
    repeat split; done.
  - destruct cur as [|d cur]; [done|]. cbn [split_runs].
    destruct (Bool.eqb _ _) eqn:E.
    + apply Bool.eqb_prop in E.
      destruct (IH ((d :: cur) ++ [c])) as (Hr & first & rest & Hs & Hk).
      { split; [done|]. apply Forall_app. split; [done|].
        constructor; [|done]. exact E. }
      split; [done|]. exists first, rest. split; [done|]. now rewrite Hk.
    + apply Bool.eqb_false_iff in E.
      destruct (IH [c]) as (Hr & first & rest & Hs & Hk).
      { split; [done|]. now repeat constructor. }
      split; [|by eauto]. rewrite Hs in *. simpl in Hk.
      change (run (d :: cur) /\ kind (d :: cur) <> kind first
              /\ runs (first :: rest)).
      split; [done|]. split; [|exact Hr]. rewrite Hk. simpl. congruence.
Qed.

Lemma split_is_runs text : runs (_split text).
Proof.
  unfold _split. destruct text as [|c text]; [done|]. cbn [split_runs].
  apply split_runs_runs. split; [done|]. now repeat constructor.
Qed.

Lemma split_concat text : concat (_split text) = text.
Proof. apply split_runs_concat. Qed.

Lemma runs_app_r chunks : forall rest, runs (chunks ++ rest) -> runs rest.
Proof.
  induction chunks as [|a chunks IH]; intros rest H; [done|].
  apply IH. simpl in H. tauto.
Qed.

Lemma runs_tail chunk chunks : runs (chunk :: chunks) -> runs chunks.
Proof. simpl. tauto. Qed.

(** A whitespace chunk is blank, so a chunk that is not blank holds no
    character [textwrap] breaks at. *)
Lemma run_not_blank chunk :
  run chunk -> is_blank chunk = false -> unbreakable chunk.
Proof.
  intros [Hne Hall] Hb. split; [done|].
  destruct (kind chunk) eqn:Hk; [|done].
  assert (is_blank chunk = true); [|congruence].
  apply is_blank_true. eapply Forall_impl; [exact Hall|].
  intros c Hc. now apply is_whitespace_isspace.
Qed.

(** Consecutive chunks meet at a word boundary. *)
Lemma runs_boundary chunks : forall rest,
  chunks <> [] -> rest <> [] -> runs (chunks ++ rest) ->
  word_boundary (concat chunks) (concat rest).
Proof.
  induction chunks as [|a chunks IH]; intros rest Hc Hr H; [done|].
  destruct chunks as [|a2 chunks].
  - destruct rest as [|b rest]; [done|]. simpl in H.
    destruct H as ([Hane Ha] & Hk & [Hbne Hb] & _).
    simpl concat at 1. rewrite app_nil_r.
    destruct (kind a) eqn:Hka.
    + left. destruct (exists_last Hane) as (a' & c & ->).
      exists a', c. split; [done|]. apply is_whitespace_isspace.
      apply Forall_app in Ha as [_ Ha]. now inversion Ha.
    + right. destruct b as [|c b]; [done|].
      exists c, (b ++ concat rest). split; [done|].
      apply is_whitespace_isspace. inversion Hb as [|? ? Hcb _]; subst.
      rewrite Hcb. simpl in *. now destruct (is_whitespace c).
  - destruct (IH rest) as [(s' & c & Hs & Hc')|Hright]; [done|done| |..].
    + change ((a :: a2 :: chunks) ++ rest)
        with (a :: ((a2 :: chunks) ++ rest)) in H.
      now apply runs_tail in H.
    + left. exists (a ++ s'), c. split; [|done].
      change (concat (a :: a2 :: chunks)) with (a ++ concat (a2 :: chunks)).
      now rewrite Hs, app_assoc.
    + now right.
Qed.

Lemma split_concat_app chunks rest :
  runs (chunks ++ rest) ->
  Py.split (concat chunks ++ concat rest)
  = Py.split (concat chunks) ++ Py.split (concat rest).
Proof.
  intros H. destruct chunks as [|a chunks]; [done|].
  destruct rest as [|b rest]; [simpl; now rewrite !app_nil_r|].
  apply split_app_boundary. now apply runs_boundary.
Qed.

End Wrap.

(** ** The loops of [_wrap_chunks] *)

Section WrapLoop.

Import textwrap.

Implicit Types (c : ascii) (chunk : str) (chunks lines : list str).

Variable width : nat.

(** The inner loop moves a prefix of the chunks to the line, and the line
    it builds from an empty one fits the width. *)
Lemma fill_line_spec chunks : forall cur_line cur_len,
  exists taken rest n,
    fill_line width chunks cur_line cur_len = (cur_line ++ taken, n, rest)
    /\ chunks = taken ++ rest
    /\ (taken = [] \/ (cur_len + length (concat taken) <= width)%nat).
Proof.
  induction chunks as [|chunk chunks IH]; intros cur_line cur_len.
  - exists [], [], cur_len. simpl. rewrite app_nil_r. auto.
  - cbn [fill_line]. case_bool_decide as Hfit.
    + destruct (IH (cur_line ++ [chunk]) (cur_len + length chunk)%nat)
        as (taken & rest & n & Hf & -> & Hb).
      exists (chunk :: taken), rest, n. rewrite Hf, <- app_assoc.
      split; [done|]. split; [done|]. right.
      simpl. rewrite length_app.
      destruct Hb as [->|Hb]; simpl in *; lia.
    + exists [], (chunk :: chunks), cur_len. rewrite app_nil_r. auto.
Qed.

Lemma drop_leading_shape lines chunks :
  exists dropped,
    chunks = dropped ++ drop_leading lines chunks /\ blank (concat dropped).
Proof.
  unfold drop_leading. destruct chunks as [|chunk rest].
  - exists []. split; [done | constructor].
  - destruct lines as [|line lines]; [exists []; split; [done|constructor]|].
    destruct (is_blank chunk) eqn:Hb.
    + exists [chunk]. split; [done|]. simpl. rewrite app_nil_r.
      now apply is_blank_true.
    + exists []. split; [done | constructor].
Qed.

Lemma drop_trailing_shape (cur_line : list str) :
  drop_trailing cur_line = cur_line
  \/ exists chunk,
       cur_line = drop_trailing cur_line ++ [chunk] /\ blank chunk.
Proof.
  unfold drop_trailing. destruct (last cur_line) as [chunk|] eqn:Hl; [|auto].
  destruct (is_blank chunk) eqn:Hb; [|auto]. right. exists chunk.
  apply last_Some in Hl as (front & ->).
  rewrite removelast_last. split; [done | now apply is_blank_true].
Qed.

(** One turn of the outer loop splits the chunks in three: a blank chunk
    it may drop, the chunks of the line, and the chunks it leaves.  The
    line fits the width unless it is made of a single chunk. *)
Lemma wrap_turn_shape lines chunks :
  exists dropped taken,
    chunks = dropped ++ taken ++ (wrap_turn width lines chunks).2
    /\ blank (concat dropped)
    /\ (wrap_turn width lines chunks).1
       = append_line lines (drop_trailing taken)
    /\ ((length (concat taken) <= width)%nat \/ exists chunk, taken = [chunk]).
Proof.
  unfold wrap_turn.
  destruct (drop_leading_shape lines chunks) as (dropped & Hd & Hblank).
  destruct (fill_line_spec (drop_leading lines chunks) [] 0%nat)
    as (taken & rest & n & Hf & Hsplit & Hfit).
  rewrite Hf. simpl app. exists dropped.
  assert (Hlen : (length (concat taken) <= width)%nat).
  { destruct Hfit as [->|Hfit]; simpl in *; lia. }
  unfold long_word, _handle_long_word.
  destruct rest as [|chunk rest].
  - exists taken. simpl. rewrite Hd at 1. rewrite Hsplit. auto.
  - case_bool_decide as Hlong.
    + destruct taken as [|t taken].
      * exists [chunk]. simpl. rewrite Hd at 1. rewrite Hsplit. eauto 6.
      * exists (t :: taken). simpl snd. simpl fst.
        rewrite Hd at 1. rewrite Hsplit. auto.
    + exists taken. simpl snd. simpl fst.
      rewrite Hd at 1. rewrite Hsplit. auto.
Qed.

Lemma runs_Forall chunks : runs chunks -> Forall run chunks.
Proof.
  induction chunks as [|a chunks IH]; [constructor|].
  simpl. intros (Ha & _ & Hr). constructor; auto.
Qed.

Lemma split_append_line lines (cur_line : list str) :
  exists new,
    append_line lines cur_line = lines ++ new
    /\ concat (map Py.split new) = Py.split (concat cur_line)
    /\ (new = [] \/ (cur_line <> [] /\ new = [concat cur_line])).
Proof.
  unfold append_line. destruct cur_line as [|chunk cur_line].
  - exists []. rewrite app_nil_r. auto.
  - exists [concat (chunk :: cur_line)]. simpl. rewrite app_nil_r.
    split; [done|]. split; [done|]. right. done.
Qed.

(** What one turn of the outer loop keeps: the words of the lines written
    and of the chunks left are the words of the chunks it started from; a
    line written fits the width or cannot be broken; its characters come
    from the chunks. *)
Lemma wrap_turn_spec lines chunks :
  runs chunks ->
  exists new,
    (wrap_turn width lines chunks).1 = lines ++ new
    /\ concat (map Py.split new)
       ++ Py.split (concat (wrap_turn width lines chunks).2)
       = Py.split (concat chunks)
    /\ Forall (line_ok width) new
    /\ Forall (fun line => forall c, c ∈ line -> c ∈ concat chunks) new
    /\ runs (wrap_turn width lines chunks).2.
Proof.
  intros Hruns.
  destruct (wrap_turn_shape lines chunks)
    as (dropped & taken & Hsplit & Hblank & Hlines & Hfit).
  remember (wrap_turn width lines chunks).2 as rest eqn:Hrest.
  assert (Hruns' : runs (taken ++ rest)).
  { rewrite Hsplit in Hruns. now apply runs_app_r in Hruns. }
  assert (Hwords : Py.split (concat (drop_trailing taken))
                   = Py.split (concat taken)).
  { destruct (drop_trailing_shape taken) as [->|(b & Ht & Hb)]; [done|].
    remember (drop_trailing taken) as kept. rewrite Ht.
    rewrite concat_app. simpl. rewrite app_nil_r.
    now rewrite split_blank_suffix. }
  assert (Hsub : forall c, c ∈ concat (drop_trailing taken)
                           -> c ∈ concat chunks).
  { intros c Hc. rewrite Hsplit, !concat_app.
    apply elem_of_app. right. apply elem_of_app. left.
    destruct (drop_trailing_shape taken) as [<-|(b & Ht & Hb)]; [done|].
    remember (drop_trailing taken) as kept.
    rewrite Ht, concat_app. apply elem_of_app. now left. }
  destruct (split_append_line lines (drop_trailing taken))
    as (new & Hnew & Hnw & Hcases).
  exists new. rewrite Hlines. split; [exact Hnew|]. split; [|split; [|split]].
  - rewrite Hnw, Hwords. rewrite Hsplit.
    rewrite !concat_app, split_blank_prefix by done.
    now rewrite split_concat_app.
  - destruct Hcases as [->|[Hne ->]]; [constructor|].
    constructor; [|constructor].
    destruct (decide (length (concat (drop_trailing taken)) <= width)%nat)
      as [Hle|Hgt]; [now left|]. right. split; [lia|].
    destruct Hfit as [Hfit|(chunk & ->)].
    + exfalso. apply Hgt.
      destruct (drop_trailing_shape taken) as [->|(b & Ht & Hb)]; [done|].
      remember (drop_trailing taken) as kept.
      rewrite Ht, concat_app, length_app in Hfit. lia.
    + assert (Hrun : run chunk).
      { apply runs_Forall in Hruns'. now inversion Hruns'. }
      unfold drop_trailing in *. simpl in *.
      destruct (is_blank chunk) eqn:Hb; [done|].
      simpl. rewrite app_nil_r. now apply run_not_blank.
  - destruct Hcases as [->|[Hne ->]]; [constructor|].
    constructor; [exact Hsub | constructor].
  - now apply runs_app_r in Hruns'.
Qed.

(** The outer loop: the lines it adds spell the words of the chunks, and
    each of them fits the width or cannot be broken. *)
Lemma wrap_loop_spec lines chunks :
  runs chunks ->
  exists new,
    wrap_loop width lines chunks = lines ++ new
    /\ concat (map Py.split new) = Py.split (concat chunks)
    /\ Forall (line_ok width) new
    /\ Forall (fun line => forall c, c ∈ line -> c ∈ concat chunks) new.
Proof.
  funelim (wrap_loop width lines chunks); intros Hruns.
  - exists []. rewrite app_nil_r. repeat split; constructor.
  - destruct (wrap_turn_spec lines (chunk :: rest) Hruns)
      as (new1 & Hl1 & Hw1 & Hok1 & Hin1 & Hruns1).
    destruct (H Hruns1) as (new2 & Hl2 & Hw2 & Hok2 & Hin2).
    exists (new1 ++ new2). rewrite Hl2, Hl1, <- app_assoc.
    split; [done|]. split; [|split].
    + rewrite map_app, concat_app, Hw2. exact Hw1.
    + now apply Forall_app.
    + apply Forall_app. split; [done|].
      eapply Forall_impl; [exact Hin2|]. intros line Hline c Hc.
      specialize (Hline c Hc).
      destruct (wrap_turn_shape lines (chunk :: rest))
        as (dropped & taken & Hsplit & _).
      rewrite Hsplit, !concat_app. apply elem_of_app. right.
      apply elem_of_app. now right.
Qed.

End WrapLoop.

(** ** The text wrapper *)

(** C8, as amended. For a positive limit [_smart_text_wrap] returns a
    string such that its lines, joined with spaces and split at whitespace
    again, give the words of the cue text, in order and each of them whole
    (line by line, the words of the lines are the words of the text:
    nothing is dropped, no word is cut, at a hyphen or elsewhere); and,
    when every whitespace character of the text is one [textwrap] breaks
    at, every line has at most [max_chars_per_line] characters unless it
    is a single word longer than that. *)
Theorem smart_text_wrap_fidelity (text : str) (max_chars_per_line : Z) :
  (0 < max_chars_per_line)%Z ->
  exists wrapped,
    _smart_text_wrap text max_chars_per_line = Some wrapped
    /\ Py.split (Py.join [space] (Py.split_on newline wrapped))
       = Py.split text
    /\ concat (map Py.split (Py.split_on newline wrapped)) = Py.split text
    /\ (breakable_whitespace text = true ->
        Forall (fun line =>
                  (Z.of_nat (length line) <= max_chars_per_line)%Z
                  \/ ((max_chars_per_line < Z.of_nat (length line))%Z
                      /\ single_word line))
               (Py.split_on newline wrapped)).
Proof.
  intros Hpos. unfold _smart_text_wrap, textwrap.wrap, textwrap._wrap_chunks.
  rewrite bool_decide_false by lia. cbn [mbind option_bind].
  set (chunks := textwrap._split (textwrap._munge_whitespace text)).
  destruct (wrap_loop_spec (Z.to_nat max_chars_per_line) [] chunks)
    as (new & Hloop & Hwords & Hok & Hin); [apply split_is_runs|].
  rewrite Hloop, app_nil_l.
  exists (Py.join [newline] new). split; [reflexivity|].
  assert (Htext : concat (map Py.split new) = Py.split text).
  { rewrite Hwords. unfold chunks.
    now rewrite split_concat, split_munge_whitespace. }
  assert (Hjoin : Py.split (Py.join [space]
                     (Py.split_on newline (Py.join [newline] new)))
                  = Py.split text).
  { unfold Py.split_on. rewrite split_join_split_on by reflexivity.
    rewrite app_nil_l, split_join by reflexivity. exact Htext. }
  split; [exact Hjoin|]. split.
  - rewrite <- (split_join space) by reflexivity. exact Hjoin.
  - intros Hws.
    assert (Hlines : Py.split_on newline (Py.join [newline] new) = new
                     \/ Py.split_on newline (Py.join [newline] new) = [[]]).
    { destruct new as [|line new]; [now right|]. left.
      assert (Hfree : Forall (fun p => newline ∉ p) (line :: new)).
      { eapply Forall_impl; [exact Hin|]. intros p Hp Hnl.
        apply Hp in Hnl. unfold chunks in Hnl.
        rewrite split_concat in Hnl.
        now apply munge_whitespace_no_newline in Hnl. }
      inversion Hfree; subst. unfold Py.split_on.
      now rewrite split_on_join. }
    destruct Hlines as [-> | ->].
    + rewrite Forall_forall in Hok, Hin. apply Forall_forall.
      intros line Hline. destruct (Hok line Hline) as [Hle|[Hgt Hw]].
      * left. lia.
      * right. split; [lia|].
        apply (unbreakable_single_word text); [exact Hws| |exact Hw].
        intros c Hc. specialize (Hin line Hline c Hc).
        unfold chunks in Hin. now rewrite split_concat in Hin.
    + constructor; [|constructor]. left. simpl. lia.
Qed.

Lemma smart_text_wrap_fidelity_witness :
  exists wrapped,
    _smart_text_wrap sharks_text 12 = Some wrapped
    /\ Py.split (Py.join [space] (Py.split_on newline wrapped))
       = Py.split sharks_text
    /\ concat (map Py.split (Py.split_on newline wrapped))
       = Py.split sharks_text
    /\ Forall (fun line =>
                 (Z.of_nat (length line) <= 12)%Z
                 \/ ((12 < Z.of_nat (length line))%Z /\ single_word line))
              (Py.split_on newline wrapped).
Proof.
  destruct (smart_text_wrap_fidelity sharks_text 12 ltac:(lia))
    as (wrapped & Hw & Hjoin & Hwords & Hbound).
  exists wrapped. split; [exact Hw|]. split; [exact Hjoin|].
  split; [exact Hwords|]. apply Hbound. reflexivity.
Defined.

(** C8, as stated, fails where two words are joined by a no-break space:
    [textwrap] does not break there, so the line [be<U+00A0>or] is longer
    than the limit of 3 and holds two words. *)
Lemma smart_text_wrap_line_bound_counterexample :
  _smart_text_wrap nbsp_text 3 = Some nbsp_text
  /\ Py.split nbsp_text = [str_of "be"; str_of "or"]
  /\ ~ (exists wrapped,
          _smart_text_wrap nbsp_text 3 = Some wrapped
          /\ Py.split (Py.join [space] (Py.split_on newline wrapped))
             = Py.split nbsp_text
          /\ Forall (fun line =>
                       (Z.of_nat (length line) <= 3)%Z
                       \/ ((3 < Z.of_nat (length line))%Z
                           /\ single_word line))
                    (Py.split_on newline wrapped)).
Proof.
  assert (Hw : _smart_text_wrap nbsp_text 3 = Some nbsp_text)
    by (vm_compute; reflexivity).
  split; [exact Hw|]. split; [vm_compute; reflexivity|].
  intros (wrapped & Hw' & _ & Hbound).
  rewrite Hw in Hw'. injection Hw' as <-.
  change (Py.split_on newline nbsp_text) with [nbsp_text] in Hbound.
  inversion Hbound as [|? ? [Hle|[_ Hone]] _]; subst.
  - vm_compute in Hle. now apply Hle.
  - unfold single_word in Hone. vm_compute in Hone. discriminate Hone.
Qed.

(** The wrapper at work: lines of at most 12 characters, no break at the
    hyphen; and a word longer than the limit on a line of its own. *)
Example smart_text_wrap_sharks :
  _smart_text_wrap sharks_text 12
  = Some (Py.join [newline]
            (map str_of ["Sharks never"; "sleep, not"; "even at";
                         "night-time"]%string)).
Proof. vm_compute. reflexivity. Qed.

Example smart_text_wrap_long_word :
  _smart_text_wrap long_word_text 8
  = Some (Py.join [newline]
            (map str_of ["an"; "extraordinarily"; "long-winded";
                         "word"]%string)).
Proof. vm_compute. reflexivity. Qed.

(** [textwrap] refuses a limit that is not positive. *)
Example smart_text_wrap_zero : _smart_text_wrap sharks_text 0 = None.
Proof. reflexivity. Qed.

(** * Further properties of the code *)

(** ** The fact history *)

Section Store.

Implicit Types (g : Generator) (topic main_fact : str)
  (by_topic : gmap str (list FactRecord)).

Lemma count_facts_insert by_topic topic facts :
  by_topic !! topic = None ->
  count_facts (<[topic := facts]> by_topic)
  = (length facts + count_facts by_topic)%nat.
Proof.
  intros Hnone. unfold count_facts.
  rewrite map_fold_insert_L; [done| |done].
  intros. lia.
Qed.

Lemma count_facts_lookup by_topic topic facts :
  by_topic !! topic = Some facts ->
  count_facts by_topic
  = (length facts + count_facts (delete topic by_topic))%nat.
Proof.
  intros Hsome. unfold count_facts.
  rewrite (map_fold_delete_L _ _ topic facts); [done| |done].
  intros. lia.
Qed.

(** Replacing the list of a topic changes the count by the change in
    length. *)
Lemma count_facts_append by_topic topic (entry : FactRecord) :
  count_facts
    (<[topic := default [] (by_topic !! topic) ++ [entry]]> by_topic)
  = S (count_facts by_topic).
Proof.
  rewrite <- insert_delete_eq.
  rewrite count_facts_insert by apply lookup_delete_eq.
  rewrite length_app. simpl.
  destruct (by_topic !! topic) as [facts|] eqn:Hl; simpl.
  - rewrite (count_facts_lookup by_topic topic facts Hl). lia.
  - rewrite delete_id by done. lia.
Qed.

(** The table [_save_script_to_database] leaves. *)
Lemma save_script_table (written : bool) now now_saved g script_data
    main_fact topic :
  facts_by_topic
    (gen_facts (after (_save_script_to_database written now now_saved g
                         script_data main_fact topic)))
  = <[topic := default [] (facts_by_topic (gen_facts g) !! topic)
               ++ [mkFact main_fact (sd_full_script script_data) now
                     (gen_model g)]]>
      (facts_by_topic (gen_facts g)).
Proof.
  unfold _save_script_to_database, save_facts.
  destruct written; cbn [after gen_facts facts_by_topic].
  all: destruct (facts_by_topic (gen_facts g) !! topic) as [facts|] eqn:Hl;
    [now rewrite Hl
    |rewrite lookup_insert_eq; simpl; now rewrite insert_insert_eq].
Qed.


Lemma save_script_counts_aux (written : bool) now now_saved g script_data
    main_fact topic :
  total_facts
    (gen_facts (after (_save_script_to_database written now now_saved g
                         script_data main_fact topic)))
  = S (count_facts (facts_by_topic (gen_facts g))).
Proof.
  transitivity (count_facts
    (facts_by_topic
       (gen_facts (after (_save_script_to_database written now now_saved g
                            script_data main_fact topic)))));
    [now destruct written|].
  rewrite save_script_table. apply count_facts_append.
Qed.

End Store.

(** X1. Saving a script appends its fact to the facts of its topic, after
    those already there, and leaves the facts of every other topic as
    they were, whether the file is then written or the write raises. *)
Theorem save_script_appends_fact
    (written : bool) (now now_saved : str) (g : Generator)
    (script_data : ScriptData) (main_fact topic other : str) :
  let g' := after (_save_script_to_database written now now_saved g
                     script_data main_fact topic) in
  get_existing_facts (gen_facts g') topic
  = get_existing_facts (gen_facts g) topic ++ [main_fact]
  /\ (other <> topic ->
      get_existing_facts (gen_facts g') other
      = get_existing_facts (gen_facts g) other).
Proof.
  cbn zeta. unfold get_existing_facts. rewrite save_script_table. split.
  - rewrite lookup_insert_eq. simpl. now rewrite map_app.
  - intros Hne. now rewrite lookup_insert_ne.
Qed.

Lemma save_script_appends_fact_witness :
  get_existing_facts
    (gen_facts
       (after (_save_script_to_database true [] [] sample_generator
                 sample_script (sd_fact sample_script) (str_of "Animals"))))
    (str_of "Sports")
  = get_existing_facts (gen_facts sample_generator) (str_of "Sports").
Proof.
  apply (save_script_appends_fact true [] [] sample_generator sample_script
           (sd_fact sample_script) (str_of "Animals") (str_of "Sports")).
  discriminate.
Defined.

(** X2. After a save the ["total_facts"] entry of the metadata is the
    number of facts stored over all topics, one more than were stored
    before, whatever the entry said before; and ["last_updated"] is the
    time of the save.  This holds whether the file is then written or the
    write raises; the call returns exactly when the file is written. *)
Theorem save_script_counts_facts
    (written : bool) (now now_saved : str) (g : Generator)
    (script_data : ScriptData) (main_fact topic : str) :
  let save := _save_script_to_database written now now_saved g script_data
                main_fact topic in
  let g' := after save in
  total_facts (gen_facts g') = count_facts (facts_by_topic (gen_facts g'))
  /\ total_facts (gen_facts g')
     = S (count_facts (facts_by_topic (gen_facts g)))
  /\ gen_last_updated g' = Some now_saved
  /\ (save = Saved g' <-> written = true).
Proof.
  cbn zeta. split; [now destruct written|]. split; [|split].
  - apply save_script_counts_aux.
  - now destruct written.
  - destruct written; split; done.
Qed.

Section Similarity.

Implicit Types (new_fact existing topic : str).

(** The similarity test in whole numbers: the quotient exceeds 0.7 when ten
    times the intersection exceeds seven times the union. *)
Lemma too_similar_counts new_fact existing :
  too_similar new_fact existing
  <-> (7 * size (word_set new_fact ∪ word_set existing)
       < 10 * size (word_set new_fact ∩ word_set existing))%nat.
Proof.
  unfold too_similar, SIMILARITY_THRESHOLD.
  set (u := size (word_set new_fact ∪ word_set existing)).
  set (i := size (word_set new_fact ∩ word_set existing)).
  assert (Hiu : (i <= u)%nat).
  { apply subseteq_size. etransitivity;
      [apply intersection_subseteq_l | apply union_subseteq_l]. }
  split.
  - intros [Hu Hs].
    assert (Hpos : 0 < inject_Z (Z.of_nat u)).
    { change 0 with (inject_Z 0). rewrite <- Zlt_Qlt. lia. }
    apply (Qmult_lt_compat_r _ _ _ Hpos) in Hs.
    unfold Qdiv in Hs. rewrite <- Qmult_assoc in Hs.
    rewrite (Qmult_comm (/ _)), Qmult_inv_r, Qmult_1_r in Hs
      by (intros E; rewrite E in Hpos; now apply Qlt_irrefl in Hpos).
    unfold Qlt in Hs. simpl in Hs. lia.
  - intros H.
    assert (Hu : (0 < u)%nat) by lia. split; [exact Hu|].
    apply Qlt_shift_div_l.
    + change 0 with (inject_Z 0). rewrite <- Zlt_Qlt. lia.
    + unfold Qlt. simpl. lia.
Qed.

Lemma too_similar_self new_fact :
  word_set new_fact <> ∅ -> too_similar new_fact new_fact.
Proof.
  intros Hne. apply too_similar_counts.
  rewrite union_idemp_L, intersection_idemp_L.
  assert (size (word_set new_fact) <> 0%nat); [|lia].
  intros H0. now apply size_empty_iff, leibniz_equiv in H0.
Qed.

Lemma is_fact_duplicate_true facts_data new_fact topic :
  Exists (too_similar new_fact) (get_existing_facts facts_data topic) ->
  is_fact_duplicate facts_data new_fact topic = Some true.
Proof.
  intros H. unfold is_fact_duplicate.
  destruct (duplicate_loop_spec new_fact
              (get_existing_facts facts_data topic)) as (b & -> & Hiff).
  f_equal. now apply Hiff.
Qed.

Lemma is_fact_duplicate_false facts_data new_fact topic :
  Forall (fun existing => ~ too_similar new_fact existing)
         (get_existing_facts facts_data topic) ->
  is_fact_duplicate facts_data new_fact topic = Some false.
Proof.
  intros H. unfold is_fact_duplicate.
  destruct (duplicate_loop_spec new_fact
              (get_existing_facts facts_data topic)) as (b & -> & Hiff).
  f_equal. destruct b; [|done]. exfalso.
  destruct Hiff as [Hex _]. specialize (Hex eq_refl).
  apply Exists_exists in Hex as (existing & Hin & Hsim).
  rewrite Forall_forall in H. now apply (H existing).
Qed.

End Similarity.

(** X3. A fact that was just saved under a topic is reported as a
    duplicate for that topic from then on, provided it has at least one
    word; this does not depend on the file having been written. *)
Theorem saved_fact_is_duplicate
    (written : bool) (now now_saved : str) (g : Generator)
    (script_data : ScriptData) (main_fact topic : str) :
  word_set main_fact <> ∅ ->
  gen_is_duplicate
    (after (_save_script_to_database written now now_saved g script_data
              main_fact topic))
    main_fact topic
  = Some true.
Proof.
  intros Hne. unfold gen_is_duplicate. apply is_fact_duplicate_true.
  unfold get_existing_facts. rewrite save_script_table, lookup_insert_eq.
  simpl. rewrite map_app. apply Exists_app. right.
  constructor. now apply too_similar_self.
Qed.

Lemma saved_fact_is_duplicate_witness :
  gen_is_duplicate
    (after (_save_script_to_database false [] [] sample_generator
              sample_script (sd_fact sample_script) (str_of "Animals")))
    (sd_fact sample_script) (str_of "Animals")
  = Some true.
Proof.
  apply (saved_fact_is_duplicate false [] [] sample_generator sample_script
           (sd_fact sample_script) (str_of "Animals")).
  vm_compute. discriminate.
Defined.

(** X4. A new fact without any word (empty or blank) is never reported as
    a duplicate, whatever the history holds. *)
Theorem wordless_fact_is_never_duplicate
    (facts_data : FactsData) (new_fact topic : str) :
  word_set new_fact = ∅ ->
  is_fact_duplicate facts_data new_fact topic = Some false.
Proof.
  intros Hw. apply is_fact_duplicate_false. apply Forall_forall.
  intros existing _ Hsim. apply too_similar_counts in Hsim.
  rewrite Hw, intersection_empty_l_L, size_empty in Hsim. lia.
Qed.

Lemma wordless_fact_is_never_duplicate_witness :
  is_fact_duplicate sample_facts (str_of "  ") (str_of "Animals")
  = Some false.
Proof.
  apply (wordless_fact_is_never_duplicate sample_facts (str_of "  ")
           (str_of "Animals")).
  reflexivity.
Defined.

(** X5. The duplicate test in whole numbers: a new fact is reported as a
    duplicate exactly when, for some stored fact of the topic, ten times
    the number of shared words exceeds seven times the number of words
    the two facts have together; a similarity of exactly 0.7 is not a
    duplicate. *)
Theorem is_fact_duplicate_counts
    (facts_data : FactsData) (new_fact topic : str) :
  is_fact_duplicate facts_data new_fact topic = Some true
  <-> exists existing,
        existing ∈ get_existing_facts facts_data topic
        /\ (7 * size (word_set new_fact ∪ word_set existing)
            < 10 * size (word_set new_fact ∩ word_set existing))%nat.
Proof.
  unfold is_fact_duplicate.
  destruct (duplicate_loop_spec new_fact
              (get_existing_facts facts_data topic)) as (b & -> & Hiff).
  split.
  - intros [= ->]. destruct Hiff as [Hex _]. specialize (Hex eq_refl).
    apply Exists_exists in Hex as (existing & Hin & Hsim).
    exists existing. split; [done|]. now apply too_similar_counts.
  - intros (existing & Hin & Hc). f_equal. apply Hiff.
    apply Exists_exists. exists existing. split; [done|].
    now apply too_similar_counts.
Qed.

(** ** The frame of the background *)

Section Frame.

Lemma aspect_wider (w h : Z) :
  (0 < h)%Z ->
  Py.gt (inject_Z w / inject_Z h) (9 / 16) = true <-> (9 * h < 16 * w)%Z.
Proof.
  intros Hh.
  assert (Hpos : 0 < inject_Z h).
  { change 0 with (inject_Z 0). now rewrite <- Zlt_Qlt. }
  rewrite gt_true. split.
  - intros H. apply (Qmult_lt_compat_r _ _ _ Hpos) in H.
    unfold Qdiv in H. rewrite <- (Qmult_assoc (inject_Z w)) in H.
    rewrite (Qmult_comm (/ _)), Qmult_inv_r, Qmult_1_r in H
      by (intros E; rewrite E in Hpos; now apply Qlt_irrefl in Hpos).
    unfold Qlt in H. simpl in H. lia.
  - intros H. apply Qlt_shift_div_l; [exact Hpos|].
    unfold Qlt. simpl. lia.
Qed.

Lemma framed_source_resize (uniform : Q -> Q -> Q) (video : VideoFileClip)
    (required_duration : Q) :
  video_h video <> 0%Z ->
  framed_source
    (_resize_to_shorts_format_with_random_start uniform video
       required_duration)
  = if Py.gt (inject_Z (video_w video) / inject_Z (video_h video)) (9 / 16)
    then Some (Resized target_height
                 (Cropped
                    (video_w video / 2 - Z.quot (video_h video * 9) 16 / 2)
                    (video_w video / 2 + Z.quot (video_h video * 9) 16 / 2)
                    (Source video)))
    else Some (Resized target_height (Source video)).
Proof.
  intros Hh. unfold _resize_to_shorts_format_with_random_start.
  rewrite truediv_int_defined by exact Hh.
  destruct (Py.lt _ required_duration); now destruct (Py.gt _ _).
Qed.

End Frame.

(** X6. A source wider than 9:16 is cropped, before it is scaled to a
    height of 1920, to a window of columns that lies inside the frame, is
    centred on the middle column and is as wide as [int(h * 9/16)] or one
    pixel less; a source that is not wider is scaled without any crop. The
    rows are never cropped.  This is the clip the window in time is cut
    from, and the clip the failing [loop] is called on when the source is
    too short. *)
Theorem background_crop_window
    (uniform : Q -> Q -> Q) (video : VideoFileClip) (required_duration : Q) :
  (0 < video_h video)%Z ->
  let framed :=
    framed_source
      (_resize_to_shorts_format_with_random_start uniform video
         required_duration) in
  ((9 * video_h video < 16 * video_w video)%Z ->
     exists x1 x2,
       framed = Some (Resized 1920 (Cropped x1 x2 (Source video)))
       /\ (0 <= x1 <= x2)%Z /\ (x2 <= video_w video)%Z
       /\ (x1 + x2 = 2 * (video_w video / 2))%Z
       /\ (9 * video_h video / 16 - 1 <= x2 - x1 <= 9 * video_h video / 16)%Z)
  /\ ((16 * video_w video <= 9 * video_h video)%Z ->
        framed = Some (Resized 1920 (Source video))).
Proof.
  intros Hh. cbn zeta. rewrite framed_source_resize by lia.
  split; intros Hw.
  - rewrite (proj2 (aspect_wider _ _ Hh)) by exact Hw.
    eexists _, _. split; [reflexivity|].
    rewrite Z.quot_div_nonneg by lia.
    replace (video_h video * 9)%Z with (9 * video_h video)%Z by lia.
    pose proof (Z.div_mod (9 * video_h video) 16 ltac:(lia)) as H1.
    pose proof (Z.mod_pos_bound (9 * video_h video) 16 ltac:(lia)) as H2.
    set (nw := (9 * video_h video / 16)%Z) in *.
    pose proof (Z.div_mod nw 2 ltac:(lia)) as H3.
    pose proof (Z.mod_pos_bound nw 2 ltac:(lia)) as H4.
    pose proof (Z.div_mod (video_w video) 2 ltac:(lia)) as H5.
    pose proof (Z.mod_pos_bound (video_w video) 2 ltac:(lia)) as H6.
    lia.
  - destruct (Py.gt _ _) eqn:E; [|reflexivity].
    apply aspect_wider in E; [lia | exact Hh].
Qed.

Lemma background_crop_window_witness :
  (exists x1 x2,
     framed_source
       (_resize_to_shorts_format_with_random_start uniform_mid
          landscape_video 30)
     = Some (Resized 1920 (Cropped x1 x2 (Source landscape_video)))
     /\ (0 <= x1 <= x2)%Z /\ (x2 <= 1920)%Z
     /\ (x1 + x2 = 2 * (1920 / 2))%Z
     /\ (9 * 1080 / 16 - 1 <= x2 - x1 <= 9 * 1080 / 16)%Z)
  /\ framed_source
       (_resize_to_shorts_format_with_random_start uniform_mid
          portrait_video 30)
     = Some (Resized 1920 (Source portrait_video)).
Proof.
  split.
  - apply (proj1 (background_crop_window uniform_mid landscape_video 30
                    ltac:(reflexivity))).
    reflexivity.
  - apply (proj2 (background_crop_window uniform_mid portrait_video 30
                    ltac:(reflexivity))).
    vm_compute. discriminate.
Defined.

(** ** From the transcript to the cues *)

Section Cues.

Implicit Types (s : str) (group words : list Word) (cue : RawCue)
  (segments : list Segment).

Lemma lstrip_decomp s : exists b, blank b /\ s = b ++ Py.lstrip s.
Proof.
  induction s as [|c s (b & Hb & IH)].
  - exists []. split; [constructor | done].
  - simpl. destruct (Py.isspace c) eqn:Hc.
    + exists (c :: b). split; [now constructor|]. simpl. now rewrite <- IH.
    + exists []. split; [constructor | done].
Qed.

Lemma rstrip_decomp s : exists b, blank b /\ s = Py.rstrip s ++ b.
Proof.
  unfold Py.rstrip. destruct (lstrip_decomp (rev s)) as (b & Hb & Hs).
  exists (rev b). split; [now apply Forall_rev|].
  rewrite <- rev_app_distr, <- Hs. now rewrite rev_involutive.
Qed.

(** Trimming a string keeps its words. *)
Lemma split_strip s : Py.split (Py.strip s) = Py.split s.
Proof.
  unfold Py.strip.
  destruct (lstrip_decomp s) as (b1 & Hb1 & Hs).
  destruct (rstrip_decomp (Py.lstrip s)) as (b2 & Hb2 & Hl).
  rewrite Hs at 2. rewrite split_blank_prefix by done.
  rewrite Hl at 2. now rewrite split_blank_suffix.
Qed.

Lemma group_cue_spec group :
  group <> [] ->
  exists cue, group_cue group = Some cue /\ cue_of_group group cue.
Proof.
  intros Hne. unfold group_cue.
  destruct (head group) as [first|] eqn:Hh; [|now destruct group].
  destruct (last group) as [final|] eqn:Hl.
  2:{ apply last_None in Hl. done. }
  simpl. eexists. split; [reflexivity|].
  exists first, final. repeat split; try done. simpl.
  rewrite split_strip, split_join by reflexivity.
  unfold spoken. now rewrite map_map.
Qed.

(** The groups of [_create_word_groups] are never empty and spell the
    words. *)
Lemma create_word_groups_parts words :
  concat (_create_word_groups words) = words
  /\ Forall (fun g => g <> []) (_create_word_groups words).
Proof.
  destruct (create_word_groups_shape words)
    as (groups & cur & Hcl & Hlen & Hcat & ->). split.
  - rewrite concat_app, <- Hcat. f_equal.
    destruct cur; simpl; [done | now rewrite app_nil_r].
  - apply Forall_app. split.
    + eapply Forall_impl; [exact Hcl|]. intros g Hg ->.
      apply closed_in_loop_length in Hg. simpl in Hg. lia.
    + destruct cur; repeat constructor. done.
Qed.

Lemma groups_cues (groups : list (list Word)) :
  Forall (fun g => g <> []) groups ->
  exists cues, mapM group_cue groups = Some cues
               /\ Forall2 cue_of_group groups cues.
Proof.
  induction 1 as [|g groups Hg _ (cues & Hm & Hf)].
  - exists []. split; [done | constructor].
  - destruct (group_cue_spec g Hg) as (cue & Hc & Hcue).
    exists (cue :: cues). split; [|now constructor].
    apply mapM_Some. constructor; [done|]. now apply mapM_Some.
Qed.

Lemma text_segments_spec segments :
  exists cues, text_segments segments = Some cues
               /\ Forall2 cue_of_group (transcript_groups segments) cues.
Proof.
  unfold text_segments, transcript_groups.
  induction segments as [|segment segments (cues & Hm & Hf)].
  - exists []. split; [done | constructor].
  - destruct (mapM segment_cues segments) as [rest|] eqn:Hrest; [|done].
    simpl in Hm. injection Hm as <-.
    assert (Hseg : exists cs,
              segment_cues segment = Some cs
              /\ Forall2 cue_of_group
                   match seg_words segment with
                   | Some words => _create_word_groups words
                   | None => []
                   end cs).
    { unfold segment_cues. destruct (seg_words segment) as [words|].
      - apply groups_cues, create_word_groups_parts.
      - exists []. split; [done | constructor]. }
    destruct Hseg as (cs & Hcs & Hfs).
    exists (cs ++ concat rest). split.
    + cbn [mapM]. rewrite Hcs. cbn. rewrite Hrest. reflexivity.
    + cbn [map concat]. now apply Forall2_app.
Qed.

Lemma transcript_groups_concat segments :
  concat (transcript_groups segments) = transcript_words segments
  /\ Forall (fun g => g <> []) (transcript_groups segments).
Proof.
  unfold transcript_groups, transcript_words.
  induction segments as [|segment segments [IH1 IH2]]; [done|].
  cbn [map concat]. rewrite concat_app, IH1.
  destruct (seg_words segment) as [words|]; simpl.
  - destruct (create_word_groups_parts words) as [-> Hne].
    split; [done|]. now apply Forall_app.
  - done.
Qed.

Lemma spoken_groups (groups : list (list Word)) (cues : list RawCue) :
  Forall2 cue_of_group groups cues ->
  concat (map (fun cue => Py.split (seg_text cue)) cues)
  = spoken (concat groups).
Proof.
  induction 1 as [|g cue groups cues (f & l & _ & _ & _ & _ & Hw) _ IH];
    [done|].
  cbn [map concat]. rewrite IH, Hw. unfold spoken.
  now rewrite map_app, concat_app.
Qed.

(** The first words of two consecutive groups, as positions in the list
    the groups come from. *)
Lemma consecutive_group_heads (groups : list (list Word)) :
  Forall (fun g => g <> []) groups ->
  forall k g g',
    groups !! k = Some g -> groups !! S k = Some g' ->
    exists i j a b,
      (i <= j)%nat
      /\ concat groups !! i = Some a /\ concat groups !! j = Some b
      /\ head g = Some a /\ head g' = Some b.
Proof.
  induction 1 as [|g0 groups Hg0 Hrest IH]; intros k g g' Hk Hk'; [done|].
  destruct k as [|k].
  - simpl in Hk, Hk'. injection Hk as ->.
    destruct groups as [|g1 groups]; [done|]. simpl in Hk'.
    injection Hk' as ->. inversion Hrest as [|? ? Hg1 _]; subst.
    destruct g as [|a g]; [done|]. destruct g' as [|b g']; [done|].
    exists 0%nat, (length (a :: g)), a, b.
    split; [lia|]. split; [done|]. split; [|done].
    cbn [concat]. rewrite lookup_app_r by lia.
    now rewrite Nat.sub_diag.
  - simpl in Hk, Hk'.
    destruct (IH k g g' Hk Hk') as (i & j & a & b & Hij & Hi & Hj & Ha & Hb).
    exists (length g0 + i)%nat, (length g0 + j)%nat, a, b.
    split; [lia|]. cbn [concat].
    rewrite !lookup_app_r by lia.
    replace (length g0 + i - length g0)%nat with i by lia.
    replace (length g0 + j - length g0)%nat with j by lia.
    done.
Qed.

End Cues.

(** X7. Building the cues never fails, whatever the transcript: there is
    one cue per word group, in order; each runs from the start of the
    first word of its group to the end of the last one; and the words of
    the cue texts, in order, are exactly the words of the transcript
    (segments without ["words"] contribute nothing). *)
Theorem text_segments_cover_transcript (segments : list Segment) :
  exists cues,
    text_segments segments = Some cues
    /\ Forall2 cue_of_group (transcript_groups segments) cues
    /\ concat (map (fun cue => Py.split (seg_text cue)) cues)
       = spoken (transcript_words segments).
Proof.
  destruct (text_segments_spec segments) as (cues & Ht & Hf).
  exists cues. split; [done|]. split; [done|].
  rewrite (spoken_groups _ _ Hf).
  now rewrite (proj1 (transcript_groups_concat segments)).
Qed.

(** X8. When the start times of the transcript's words never decrease,
    the cues handed to the overlap resolver are sorted by start, which is
    the order the resolver counts on. *)
Theorem text_segments_sorted (segments : list Segment) (cues : list RawCue) :
  starts_ordered (transcript_words segments) ->
  text_segments segments = Some cues ->
  sorted_by_start cues.
Proof.
  intros Hord Ht.
  destruct (text_segments_spec segments) as (cues' & Ht' & Hf).
  rewrite Ht in Ht'. injection Ht' as <-.
  destruct (transcript_groups_concat segments) as [Hcat Hne].
  intros k x y Hx Hy. replace (k + 1)%nat with (S k) in Hy by lia.
  destruct (Forall2_lookup_r _ _ _ _ _ Hf Hx) as (g & Hg & Hgx).
  destruct (Forall2_lookup_r _ _ _ _ _ Hf Hy) as (g' & Hg' & Hgy).
  destruct (consecutive_group_heads _ Hne k g g' Hg Hg')
    as (i & j & a & b & Hij & Hi & Hj & Ha & Hb).
  destruct Hgx as (fx & _ & Hfx & _ & -> & _).
  destruct Hgy as (fy & _ & Hfy & _ & -> & _).
  rewrite Hfx in Ha. injection Ha as ->.
  rewrite Hfy in Hb. injection Hb as ->.
  rewrite Hcat in Hi, Hj. exact (Hord i j a b Hij Hi Hj).
Qed.

(** ** Text clips *)

Section Clips.

Variable render : TextClipArgs -> option Z.

Implicit Types (style : Style) (text wrapped : str) (fonts : list (option str))
  (clip : SubtitleClip).

(** The loop over the fonts stops at the first font that renders. *)
Lemma try_fonts_first wrapped style start_time duration fonts :
  forall before font after h,
    fonts = before ++ font :: after ->
    Forall (fun f => render (styled_args wrapped style f) = None) before ->
    render (styled_args wrapped style font) = Some h ->
    try_fonts render wrapped style start_time duration fonts
    = Some {| sc_args := styled_args wrapped style font; sc_h := h;
              sc_position := (80, 960 - h / 2)%Z;
              sc_start := start_time; sc_duration := duration |}.
Proof.
  intros before font after h -> Hbefore Hfont.
  induction Hbefore as [|f before Hf _ IH]; simpl.
  - fold (styled_args wrapped style font). now rewrite Hfont.
  - fold (styled_args wrapped style f). now rewrite Hf.
Qed.

Lemma try_fonts_none wrapped style start_time duration fonts :
  try_fonts render wrapped style start_time duration fonts = None
  <-> Forall (fun f => render (styled_args wrapped style f) = None) fonts.
Proof.
  induction fonts as [|f fonts IH]; simpl.
  - split; [constructor | done].
  - fold (styled_args wrapped style f).
    destruct (render (styled_args wrapped style f)) eqn:Hf.
    + split; [done|]. intros H. inversion H; congruence.
    + rewrite IH. split; [now constructor | intros H; now inversion H].
Qed.

Lemma try_fonts_some wrapped style start_time duration fonts clip :
  try_fonts render wrapped style start_time duration fonts = Some clip ->
  exists font,
    font ∈ fonts
    /\ sc_args clip = styled_args wrapped style font
    /\ render (sc_args clip) = Some (sc_h clip)
    /\ sc_position clip = (80, 960 - sc_h clip / 2)%Z
    /\ sc_start clip = start_time /\ sc_duration clip = duration.
Proof.
  induction fonts as [|f fonts IH]; simpl; [done|].
  fold (styled_args wrapped style f).
  destruct (render (styled_args wrapped style f)) as [h|] eqn:Hf.
  - intros [= <-]. exists f. simpl. repeat split; [left | done].
  - intros H. destruct (IH H) as (font & Hin & Hrest).
    exists font. split; [now right | done].
Qed.

(** The wrapper keeps the words, for any positive limit. *)
Lemma smart_text_wrap_words text (limit : Z) :
  (0 < limit)%Z ->
  exists wrapped,
    _smart_text_wrap text limit = Some wrapped
    /\ Py.split wrapped = Py.split text.
Proof.
  intros Hpos. unfold _smart_text_wrap, textwrap.wrap, textwrap._wrap_chunks.
  rewrite bool_decide_false by lia. cbn [mbind option_bind].
  destruct (wrap_loop_spec (Z.to_nat limit) []
              (textwrap._split (textwrap._munge_whitespace text)))
    as (new & Hloop & Hwords & _); [apply split_is_runs|].
  rewrite Hloop, app_nil_l. eexists. split; [reflexivity|].
  rewrite (split_join newline) by reflexivity.
  now rewrite Hwords, split_concat, split_munge_whitespace.
Qed.

Lemma current_style_limit (name : str) :
  (0 < max_chars_per_line (current_style name))%Z.
Proof.
  unfold current_style. destruct (styles !! name) as [style|] eqn:Hs.
  - apply elem_of_list_to_map_2 in Hs. simpl.
    repeat (apply elem_of_cons in Hs as [[= _ ->]|Hs]; [reflexivity|]).
    now apply elem_of_nil in Hs.
  - reflexivity.
Qed.

(** With the default font accepted, the first call builds the clip. *)
Lemma safe_text_clip_first_font_aux text wrapped style
    (start_time duration : Q) (h : Z) :
  _smart_text_wrap text (max_chars_per_line style) = Some wrapped ->
  render (styled_args wrapped style None) = Some h ->
  exists clip,
    _create_safe_text_clip render text style start_time duration
    = Some (Some clip)
    /\ tc_text (sc_args clip) = wrapped
    /\ sc_start clip = start_time.
Proof.
  intros Hw Hh. unfold _create_safe_text_clip. rewrite Hw.
  cbn [mbind option_bind].
  rewrite (try_fonts_first wrapped style start_time duration safe_fonts
             [] None (tl safe_fonts) h eq_refl ltac:(constructor) Hh).
  eexists. split; [reflexivity|]. done.
Qed.

End Clips.

(** X9. With a style whose limit is positive, [_create_safe_text_clip]
    raises nothing, and it returns [None] exactly when [TextClip] fails
    for each of the five fonts and for the final call without outline:
    one success among the six calls is enough for a clip. *)
Theorem safe_text_clip_outcome
    (render : TextClipArgs -> option Z) (text : str) (style : Style)
    (start_time duration : Q) :
  (0 < max_chars_per_line style)%Z ->
  exists wrapped result,
    _smart_text_wrap text (max_chars_per_line style) = Some wrapped
    /\ _create_safe_text_clip render text style start_time duration
       = Some result
    /\ (result = None
        <-> Forall (fun font => render (styled_args wrapped style font) = None)
                   safe_fonts
            /\ render (plain_args wrapped style) = None).
Proof.
  intros Hpos.
  destruct (smart_text_wrap_words text _ Hpos) as (wrapped & Hw & _).
  exists wrapped. unfold _create_safe_text_clip. rewrite Hw.
  cbn [mbind option_bind].
  destruct (try_fonts render wrapped style start_time duration safe_fonts)
    as [clip|] eqn:Ht.
  - eexists. split; [done|]. split; [reflexivity|]. split; [done|].
    intros [Hall _].
    apply (proj2 (try_fonts_none render wrapped style start_time duration
                    safe_fonts)) in Hall. congruence.
  - apply (proj1 (try_fonts_none render wrapped style start_time duration
                    safe_fonts)) in Ht.
    fold (plain_args wrapped style).
    destruct (render (plain_args wrapped style)) eqn:Hp.
    + eexists. split; [done|]. split; [reflexivity|]. split; [done|].
      now intros [_ ?].
    + eexists. split; [done|]. split; [reflexivity|]. done.
Qed.

Lemma safe_text_clip_outcome_witness :
  exists wrapped result,
    _smart_text_wrap sharks_text (max_chars_per_line ultra_vibrant)
    = Some wrapped
    /\ _create_safe_text_clip render_nothing sharks_text ultra_vibrant 0 1
       = Some result
    /\ (result = None
        <-> Forall (fun font =>
                      render_nothing (styled_args wrapped ultra_vibrant font)
                      = None) safe_fonts
            /\ render_nothing (plain_args wrapped ultra_vibrant) = None).
Proof.
  apply (safe_text_clip_outcome render_nothing sharks_text ultra_vibrant 0 1).
  reflexivity.
Defined.

(** X10. A clip that [_create_safe_text_clip] returns starts at the cue's
    start and lasts the cue's duration, shows the wrapped text of the cue,
    was accepted by [TextClip] with the height recorded, sits 80 pixels
    from the left edge, and is centred on the middle row of the canvas to
    within one pixel. *)
Theorem safe_text_clip_placement
    (render : TextClipArgs -> option Z) (text : str) (style : Style)
    (start_time duration : Q) (clip : SubtitleClip) :
  _create_safe_text_clip render text style start_time duration
  = Some (Some clip) ->
  sc_start clip = start_time
  /\ sc_duration clip = duration
  /\ _smart_text_wrap text (max_chars_per_line style)
     = Some (tc_text (sc_args clip))
  /\ render (sc_args clip) = Some (sc_h clip)
  /\ (sc_position clip).1 = 80%Z
  /\ (1919 <= 2 * (sc_position clip).2 + sc_h clip <= 1921)%Z.
Proof.
  unfold _create_safe_text_clip.
  destruct (_smart_text_wrap text (max_chars_per_line style))
    as [wrapped|]; [|done]. cbn [mbind option_bind].
  destruct (try_fonts render wrapped style start_time duration safe_fonts)
    as [c|] eqn:Ht.
  - intros [= <-].
    destruct (try_fonts_some _ _ _ _ _ _ _ Ht)
      as (font & _ & Ha & Hr & Hp & Hs & Hd).
    rewrite Hp, Ha. simpl. repeat split; try done.
    + now rewrite <- Ha.
    + pose proof (Z.div_mod (sc_h c) 2 ltac:(lia)).
      pose proof (Z.mod_pos_bound (sc_h c) 2 ltac:(lia)). lia.
    + pose proof (Z.div_mod (sc_h c) 2 ltac:(lia)).
      pose proof (Z.mod_pos_bound (sc_h c) 2 ltac:(lia)). lia.
  - fold (plain_args wrapped style).
    destruct (render (plain_args wrapped style)) as [h|] eqn:Hp; [|done].
    intros [= <-]. simpl. repeat split; try done.
    + unfold target_height.
      pose proof (Z.div_mod (1920 - h) 2 ltac:(lia)).
      pose proof (Z.mod_pos_bound (1920 - h) 2 ltac:(lia)). lia.
    + unfold target_height.
      pose proof (Z.div_mod (1920 - h) 2 ltac:(lia)).
      pose proof (Z.mod_pos_bound (1920 - h) 2 ltac:(lia)). lia.
Qed.

Lemma safe_text_clip_placement_witness :
  exists clip,
    _create_safe_text_clip render_default sharks_text ultra_vibrant 0 1
    = Some (Some clip)
    /\ sc_start clip = 0
    /\ sc_duration clip = 1
    /\ _smart_text_wrap sharks_text (max_chars_per_line ultra_vibrant)
       = Some (tc_text (sc_args clip))
    /\ render_default (sc_args clip) = Some (sc_h clip)
    /\ (sc_position clip).1 = 80%Z
    /\ (1919 <= 2 * (sc_position clip).2 + sc_h clip <= 1921)%Z.
Proof.
  eexists. split; [reflexivity|].
  apply (safe_text_clip_placement render_default sharks_text ultra_vibrant
           0 1).
  reflexivity.
Defined.

(** X11. The fonts are tried in the order of [safe_fonts], with the
    style's outline: the clip is built with the first font [TextClip]
    accepts, and the outline is kept whenever some font is accepted. *)
Theorem safe_text_clip_first_font
    (render : TextClipArgs -> option Z) (text wrapped : str) (style : Style)
    (start_time duration : Q)
    (before after : list (option str)) (font : option str) (h : Z) :
  _smart_text_wrap text (max_chars_per_line style) = Some wrapped ->
  safe_fonts = before ++ font :: after ->
  Forall (fun f => render (styled_args wrapped style f) = None) before ->
  render (styled_args wrapped style font) = Some h ->
  exists clip,
    _create_safe_text_clip render text style start_time duration
    = Some (Some clip)
    /\ sc_args clip = styled_args wrapped style font
    /\ sc_h clip = h.
Proof.
  intros Hw Hfonts Hbefore Hfont. unfold _create_safe_text_clip.
  rewrite Hw. cbn [mbind option_bind].
  rewrite (try_fonts_first render wrapped style start_time duration
             safe_fonts before font after h Hfonts Hbefore Hfont).
  eexists. split; [reflexivity|]. done.
Qed.

Lemma safe_text_clip_first_font_witness :
  exists wrapped clip,
    _smart_text_wrap sharks_text (max_chars_per_line ultra_vibrant)
    = Some wrapped
    /\ _create_safe_text_clip render_helvetica sharks_text ultra_vibrant 0 1
       = Some (Some clip)
    /\ sc_args clip
       = styled_args wrapped ultra_vibrant (Some (str_of "Helvetica"))
    /\ sc_h clip = 151%Z.
Proof.
  eexists. 
  refine (let H := safe_text_clip_first_font render_helvetica sharks_text _
                     ultra_vibrant 0 1
                     [None; Some (str_of "Arial"); Some (str_of "DejaVu-Sans")]
                     [Some (str_of "Liberation-Sans")]
                     (Some (str_of "Helvetica")) 151
                     eq_refl eq_refl _ eq_refl in _).
  destruct H as (clip & Hc & Ha & Hh). exists clip. split; [reflexivity|].
  split; [exact Hc|]. split; [exact Ha | exact Hh].
  Unshelve. repeat constructor.
Defined.

(** ** From the transcript to the clips *)

Lemma timed_words_ordered : starts_ordered timed_words.
Proof.
  intros i j a b Hij Hi Hj.
  do 9 (destruct i as [|i];
        [do 9 (destruct j as [|j];
               [first [ lia
                      | vm_compute in Hi, Hj; injection Hi as <-;
                        injection Hj as <-; vm_compute; discriminate ]|]);
         done|]).
  done.
Qed.

Lemma text_segments_sorted_witness :
  exists cues,
    text_segments [mkSegment (Some timed_words)] = Some cues
    /\ (2 <= length cues)%nat /\ sorted_by_start cues.
Proof.
  eexists. split; [reflexivity|]. split; [vm_compute; lia|].
  apply (text_segments_sorted [mkSegment (Some timed_words)]).
  - exact timed_words_ordered.
  - reflexivity.
Defined.

Section Subtitles.

Variable render : TextClipArgs -> option Z.

Implicit Types (segments : list Segment) (style : Style)
  (cues : list RawCue) (fixed : list TimedCue).

(** What the overlap resolver hands on, cue by cue. *)
Lemma fix_timing_overlaps_cues cues :
  Forall2 (fun cue timed =>
             cue_text timed = seg_text cue /\ cue_start timed = seg_start cue
             /\ min_display_time <= cue_duration timed)
          cues (_fix_timing_overlaps cues).
Proof.
  apply Forall2_same_length_lookup. split; [now rewrite fix_length|].
  intros i cue timed Hi. rewrite fix_lookup, Hi. intros [= <-].
  repeat split. apply fix_segment_min_display.
Qed.

Lemma safe_text_clip_returns text style (start_time duration : Q) :
  (0 < max_chars_per_line style)%Z ->
  exists result,
    _create_safe_text_clip render text style start_time duration
    = Some result
    /\ (forall clip, result = Some clip ->
          sc_start clip = start_time /\ sc_duration clip = duration
          /\ (sc_position clip).1 = 80%Z
          /\ Py.split (tc_text (sc_args clip)) = Py.split text).
Proof.
  intros Hpos.
  destruct (smart_text_wrap_words text _ Hpos) as (wrapped & Hw & Hsplit).
  unfold _create_safe_text_clip. rewrite Hw. cbn [mbind option_bind].
  destruct (try_fonts render wrapped style start_time duration safe_fonts)
    as [c|] eqn:Ht.
  - eexists. split; [reflexivity|]. intros clip [= <-].
    destruct (try_fonts_some _ _ _ _ _ _ _ Ht)
      as (font & _ & Ha & _ & Hp & Hs & Hd).
    rewrite Ha, Hp. done.
  - fold (plain_args wrapped style).
    destruct (render (plain_args wrapped style)) as [h|].
    + eexists. split; [reflexivity|]. now intros clip [= <-].
    + eexists. split; [reflexivity|]. done.
Qed.

Lemma omap_id_length {A} (l : list (option A)) :
  (length (omap id l) <= length l)%nat.
Proof. induction l as [|[x|] l IH]; csimpl; lia. Qed.

Lemma omap_id_Some {A} (l : list A) : omap id (Some <$> l) = l.
Proof. induction l as [|x l IH]; csimpl; [done | now rewrite IH]. Qed.

End Subtitles.

(** X12. [_create_vibrant_subtitles] raises nothing, whatever the
    transcript, the style name and the outcome of the [TextClip] calls:
    every style, the fallback for an unknown name included, has a positive
    limit, and no word group is empty.  It returns at most one clip per
    word group; every clip is shown for at least [min_display_time] and
    sits 80 pixels from the left edge. *)
Theorem create_vibrant_subtitles_total
    (render : TextClipArgs -> option Z) (segments : list Segment)
    (style : str) :
  exists clips,
    _create_vibrant_subtitles render segments style = Some clips
    /\ (length clips <= length (transcript_groups segments))%nat
    /\ Forall (fun clip => min_display_time <= sc_duration clip
                           /\ (sc_position clip).1 = 80%Z) clips.
Proof.
  unfold _create_vibrant_subtitles.
  destruct (text_segments_spec segments) as (cues & -> & Hgroups).
  cbn [mbind option_bind].
  pose proof (fix_timing_overlaps_cues cues) as Hfixed.
  set (fixed := _fix_timing_overlaps cues) in *.
  assert (Hmap : exists results,
            mapM (fun segment =>
                    _create_safe_text_clip render (cue_text segment)
                      (current_style style) (cue_start segment)
                      (cue_duration segment)) fixed = Some results
            /\ length results = length fixed
            /\ Forall (fun result => forall clip, result = Some clip ->
                         min_display_time <= sc_duration clip
                         /\ (sc_position clip).1 = 80%Z) results).
  { clear Hgroups. induction Hfixed as [|cue timed cues' fixed' Hc _ IH].
    - exists []. repeat split; constructor.
    - destruct IH as (results & Hm & Hl & Hall).
      destruct (safe_text_clip_returns render (cue_text timed)
                  (current_style style) (cue_start timed)
                  (cue_duration timed) (current_style_limit style))
        as (result & Hr & Hclip).
      exists (result :: results). split; [|split].
      + cbn [mapM]. rewrite Hr. cbn. rewrite Hm. reflexivity.
      + simpl. now rewrite Hl.
      + constructor; [|done]. intros clip Hres.
        destruct (Hclip clip Hres) as (_ & -> & Hx & _).
        split; [apply Hc | exact Hx]. }
  destruct Hmap as (results & -> & Hlen & Hall). cbn [mbind option_bind].
  eexists. split; [reflexivity|]. split.
  - pose proof (omap_id_length results).
    apply Forall2_length in Hgroups, Hfixed. lia.
  - clear Hlen. induction Hall as [|[clip|] results Hr _ IH]; csimpl.
    + constructor.
    + constructor; [now apply Hr | exact IH].
    + exact IH.
Qed.

(** X13. When [TextClip] accepts the default font, every word group gets
    its clip: the clips are as many as the groups, clip [k] starts when
    the first word of group [k] starts, and the words on the clips, in
    order, are exactly the words of the transcript, none dropped, cut or
    repeated. *)
Theorem subtitles_show_transcript
    (render : TextClipArgs -> option Z) (segments : list Segment)
    (style : str) :
  (forall args, tc_font args = None -> is_Some (render args)) ->
  exists clips,
    _create_vibrant_subtitles render segments style = Some clips
    /\ Forall2 (fun group clip =>
                  exists first, head group = Some first
                                /\ sc_start clip = word_start first)
               (transcript_groups segments) clips
    /\ concat (map (fun clip => Py.split (tc_text (sc_args clip))) clips)
       = spoken (transcript_words segments).
Proof.
  intros Hrender. unfold _create_vibrant_subtitles.
  destruct (text_segments_spec segments) as (cues & -> & Hgroups).
  cbn [mbind option_bind].
  pose proof (fix_timing_overlaps_cues cues) as Hfixed.
  set (fixed := _fix_timing_overlaps cues) in *.
  assert (Hmap : exists clips,
            mapM (fun segment =>
                    _create_safe_text_clip render (cue_text segment)
                      (current_style style) (cue_start segment)
                      (cue_duration segment)) fixed = Some (Some <$> clips)
            /\ Forall2 (fun cue clip =>
                          sc_start clip = seg_start cue
                          /\ Py.split (tc_text (sc_args clip))
                             = Py.split (seg_text cue)) cues clips).
  { clear Hgroups. induction Hfixed as [|cue timed cues' fixed' Hc _ IH].
    - exists []. split; [done | constructor].
    - destruct IH as (clips & Hm & Hall).
      destruct (smart_text_wrap_words (cue_text timed) _
                  (current_style_limit style)) as (wrapped & Hw & Hsplit).
      destruct (Hrender (styled_args wrapped (current_style style) None)
                  eq_refl) as (h & Hh).
      destruct (safe_text_clip_first_font_aux render (cue_text timed) wrapped
                  (current_style style) (cue_start timed)
                  (cue_duration timed) h Hw Hh) as (clip & Hclip & Ha & Hs).
      exists (clip :: clips). split.
      + cbn [mapM]. rewrite Hclip. cbn. rewrite Hm. reflexivity.
      + constructor; [|done]. destruct Hc as (Ht & Hst & _).
        rewrite Hs, Ha, <- Ht, <- Hst. done. }
  destruct Hmap as (clips & -> & Hall). cbn [mbind option_bind].
  rewrite omap_id_Some. exists clips. split; [done|]. split.
  - clear -Hgroups Hall. revert clips Hall.
    induction Hgroups as [|g cue groups cues Hg _ IH]; intros clips Hall;
      inversion Hall as [|? clip ? clips' [Hs _] Hrest]; subst; [constructor|].
    constructor; [|now apply IH].
    destruct Hg as (first & _ & Hh & _ & Hst & _).
    exists first. split; [done|]. now rewrite Hs.
  - rewrite <- (proj1 (transcript_groups_concat segments)).
    rewrite <- (spoken_groups _ _ Hgroups).
    clear -Hall. induction Hall as [|cue clip cues clips [_ Hw] _ IH];
      [done|]. cbn [map concat]. now rewrite Hw, IH.
Qed.

Lemma subtitles_show_transcript_witness :
  exists clips,
    _create_vibrant_subtitles render_default sample_transcript
      (str_of "neon_pop") = Some clips
    /\ Forall2 (fun group clip =>
                  exists first, head group = Some first
                                /\ sc_start clip = word_start first)
               (transcript_groups sample_transcript) clips
    /\ concat (map (fun clip => Py.split (tc_text (sc_args clip))) clips)
       = spoken (transcript_words sample_transcript).
Proof.
  apply (subtitles_show_transcript render_default sample_transcript
           (str_of "neon_pop")).
  intros args Hfont. unfold render_default. rewrite Hfont. eauto.
Defined.

(** ** Trimming and replacing *)

Section Strings.

Implicit Types (c : ascii) (s t b old new : str).

Lemma lstrip_id s :
  (forall c, head s = Some c -> Py.isspace c = false) -> Py.lstrip s = s.
Proof.
  destruct s as [|c s]; [done|]. intros H. simpl.
  now rewrite (H c eq_refl).
Qed.

Lemma lstrip_blank_prefix b s : blank b -> Py.lstrip (b ++ s) = Py.lstrip s.
Proof. induction 1 as [|c b Hc _ IH]; [done|]. simpl. now rewrite Hc. Qed.

Lemma head_rev s : head (rev s) = last s.
Proof.
  induction s as [|c s IH] using rev_ind; [done|].
  rewrite rev_unit, last_snoc. done.
Qed.

Lemma last_rev s : last (rev s) = head s.
Proof. rewrite <- head_rev. now rewrite rev_involutive. Qed.

Lemma rstrip_id s :
  (forall c, last s = Some c -> Py.isspace c = false) -> Py.rstrip s = s.
Proof.
  intros H. unfold Py.rstrip. rewrite lstrip_id; [apply rev_involutive|].
  intros c. rewrite head_rev. apply H.
Qed.

Lemma rstrip_blank_suffix s b : blank b -> Py.rstrip (s ++ b) = Py.rstrip s.
Proof.
  intros Hb. unfold Py.rstrip. rewrite rev_app_distr.
  rewrite lstrip_blank_prefix; [done|]. now apply Forall_rev.
Qed.

Lemma lstrip_head' s c : head (Py.lstrip s) = Some c -> Py.isspace c = false.
Proof.
  destruct (Py.lstrip s) as [|d t] eqn:E; [done|]. intros [= <-].
  eapply lstrip_head, E.
Qed.

(** What [strip] returns starts and ends with a character that is not
    whitespace. *)
Lemma strip_tight s : tight (Py.strip s).
Proof.
  unfold Py.strip. split; intros c Hc.
  - destruct (rstrip_decomp (Py.lstrip s)) as (b & _ & Hb).
    destruct (Py.rstrip (Py.lstrip s)) as [|d t]; [done|].
    injection Hc as ->. apply (lstrip_head' s). now rewrite Hb.
  - unfold Py.rstrip in Hc. rewrite last_rev in Hc.
    now apply lstrip_head' in Hc.
Qed.

Lemma tight_trimmed s : tight s <-> trimmed s.
Proof.
  split.
  - intros [Hh Hl]. unfold trimmed, Py.strip.
    rewrite lstrip_id by done. now apply rstrip_id.
  - intros <-. apply strip_tight.
Qed.

Lemma strip_idemp s : Py.strip (Py.strip s) = Py.strip s.
Proof. apply tight_trimmed, strip_tight. Qed.

(** [strip] finds the tight string between two blank ones. *)
Lemma strip_between b s b' :
  blank b -> blank b' -> tight s -> Py.strip (b ++ s ++ b') = s.
Proof.
  intros Hb Hb' [Hh Hl]. unfold Py.strip.
  rewrite lstrip_blank_prefix by done.
  destruct s as [|c s].
  - simpl. rewrite lstrip_blank by done. done.
  - rewrite lstrip_id by (intros d [= <-]; now apply Hh).
    rewrite rstrip_blank_suffix by done. now apply rstrip_id.
Qed.

Lemma strip_after_blank b s : blank b -> tight s -> Py.strip (b ++ s) = s.
Proof.
  intros Hb Hs. rewrite <- (strip_between b s []) at 2;
    [now rewrite app_nil_r | done | constructor | done].
Qed.

Lemma strip_before_blank s b : tight s -> blank b -> Py.strip (s ++ b) = s.
Proof. intros Hs Hb. now apply (strip_between [] s b); [constructor|..]. Qed.

Lemma startswith_app s t : PyStr.startswith (s ++ t) s = true.
Proof. apply bool_decide_eq_true. now exists t. Qed.

Lemma startswith_true s t :
  PyStr.startswith s t = true <-> exists rest, s = t ++ rest.
Proof. unfold PyStr.startswith. now rewrite bool_decide_eq_true. Qed.

Lemma startswith_head c d s t :
  c <> d -> PyStr.startswith (c :: s) (d :: t) = false.
Proof.
  intros Hne. apply bool_decide_eq_false. intros (rest & [= ? _]). done.
Qed.

Lemma replace_go_skip old new pre : forall s,
  PyStr.replace_go old new (length pre) (pre ++ s)
  = PyStr.replace_go old new 0 s.
Proof. induction pre as [|c pre IH]; intros s; [done | apply IH]. Qed.

(** An occurrence at the start is replaced, and the search goes on after
    it. *)
Lemma replace_prefix old new s :
  old <> [] ->
  PyStr.replace (old ++ s) old new = new ++ PyStr.replace s old new.
Proof.
  destruct old as [|c old]; [done|]. intros _. unfold PyStr.replace.
  change ((c :: old) ++ s) with (c :: (old ++ s)).
  cbn [PyStr.replace_go].
  pose proof (startswith_app (c :: old) s) as E.
  change ((c :: old) ++ s) with (c :: (old ++ s)) in E. rewrite E. f_equal.
  replace (length (c :: old) - 1)%nat with (length old) by (simpl; lia).
  apply replace_go_skip.
Qed.

(** Without an occurrence nothing changes. *)
Lemma replace_absent old new s :
  old <> [] -> occurs_not old s -> PyStr.replace s old new = s.
Proof.
  destruct old as [|d old]; [done|]. intros _. unfold PyStr.replace.
  induction s as [|c s IH]; intros Hocc; [done|].
  cbn [PyStr.replace_go].
  destruct (PyStr.startswith (c :: s) (d :: old)) eqn:E.
  - apply startswith_true in E as (rest & E).
    exfalso. apply (Hocc [] rest). exact E.
  - f_equal. apply IH. intros before after Hs.
    apply (Hocc (c :: before) after). now rewrite Hs.
Qed.

End Strings.

(** ** Reading the script *)

Section Parse.

Implicit Types (line text label key value p : str) (parts : gmap str str).

Lemma parse_line_label parts line :
  parse_line parts line
  = match line_label line with
    | Some (key, label) =>
        <[key := Py.strip (PyStr.replace (Py.strip line) label [])]> parts
    | None => parts
    end.
Proof.
  unfold parse_line, line_label.
  repeat (destruct (PyStr.startswith (Py.strip line) _); [reflexivity|]).
  reflexivity.
Qed.

(** The [if] chain tests the labels in order; as no two of them start with
    the same letter, a line takes the branch of the one label it starts
    with. *)
Lemma line_label_Some line key label :
  line_label line = Some (key, label)
  <-> (key, label) ∈ labels
      /\ PyStr.startswith (Py.strip line) label = true.
Proof.
  unfold line_label, labels. split.
  - destruct (PyStr.startswith (Py.strip line) HOOK) eqn:E1;
      [|destruct (PyStr.startswith (Py.strip line) FACT) eqn:E2;
        [|destruct (PyStr.startswith (Py.strip line) EXPLANATION) eqn:E3;
          [|destruct (PyStr.startswith (Py.strip line) CTA) eqn:E4;
            [|done]]]];
      intros [= <- <-]; (split; [|done]);
      repeat first [apply list_elem_of_here | apply list_elem_of_further].
  - intros [Hin Hstart].
    apply startswith_true in Hstart as (rest & ->).
    repeat (apply elem_of_cons in Hin as [[= -> ->]|Hin];
            [vm_compute; reflexivity|]).
    now apply elem_of_nil in Hin.
Qed.

(** Which keys are set after some lines. *)
Lemma parse_lines_key (lines : list str) : forall parts key,
  is_Some (fold_left parse_line lines parts !! key)
  <-> is_Some (parts !! key)
      \/ exists label line,
           (key, label) ∈ labels /\ line ∈ lines
           /\ PyStr.startswith (Py.strip line) label = true.
Proof.
  induction lines as [|line lines IH]; intros parts key.
  - simpl. split; [now left|]. intros [H|(? & ? & _ & H & _)]; [done|].
    now apply elem_of_nil in H.
  - cbn [fold_left]. rewrite IH, parse_line_label. split.
    + intros [H|(label & l & Hl & Hin & Hs)].
      * destruct (line_label line) as [[k lab]|] eqn:E; [|now left].
        destruct (decide (k = key)) as [->|Hne].
        -- right. exists lab, line. apply line_label_Some in E as [? ?].
           split; [done|]. split; [left | done].
        -- rewrite lookup_insert_ne in H by done. now left.
      * right. exists label, l. split; [done|]. split; [now right | done].
    + intros [H|(label & l & Hl & Hin & Hs)].
      * left. destruct (line_label line) as [[k lab]|]; [|done].
        destruct (decide (k = key)) as [->|Hne].
        -- rewrite lookup_insert_eq. eauto.
        -- now rewrite lookup_insert_ne.
      * apply elem_of_cons in Hin as [->|Hin].
        -- left. rewrite (proj2 (line_label_Some line key label))
             by done.
           rewrite lookup_insert_eq. eauto.
        -- right. eauto.
Qed.

(** What the lines keep true of the dictionary: its keys are among the
    four, its values are trimmed. *)
Lemma parse_lines_parts (lines : list str) : forall parts,
  (forall key value, parts !! key = Some value ->
     key ∈ required_parts /\ trimmed value) ->
  forall key value,
    fold_left parse_line lines parts !! key = Some value ->
    key ∈ required_parts /\ trimmed value.
Proof.
  induction lines as [|line lines IH]; intros parts Hparts; [exact Hparts|].
  cbn [fold_left]. apply IH. rewrite parse_line_label.
  destruct (line_label line) as [[k lab]|] eqn:E; [|exact Hparts].
  intros key value. destruct (decide (k = key)) as [->|Hne].
  - rewrite lookup_insert_eq. intros [= <-]. split.
    + apply line_label_Some in E as [Hin _]. unfold labels in Hin.
      unfold required_parts.
      repeat (apply elem_of_cons in Hin as [[= -> _]|Hin];
              [repeat first [apply list_elem_of_here
                            | apply list_elem_of_further]|]).
      now apply elem_of_nil in Hin.
    + apply strip_idemp.
  - rewrite lookup_insert_ne by done. apply Hparts.
Qed.

(** The value read from a labelled line. *)
Lemma labelled_line label p :
  label <> [] -> tight label -> tight p -> occurs_not label p ->
  exists tail,
    Py.strip (label ++ space :: p) = label ++ tail
    /\ Py.strip (PyStr.replace (label ++ tail) label []) = p.
Proof.
  intros Hne [Hlh Hll] [Hph Hpl] Hocc. destruct p as [|c p].
  - exists []. split.
    + rewrite app_nil_r. apply strip_before_blank; [done|].
      repeat constructor.
    + rewrite app_nil_r, <- (app_nil_r label) at 1.
      rewrite replace_prefix by done. simpl.
      destruct label; [done | reflexivity].
  - exists (space :: c :: p). split.
    + apply tight_trimmed. split.
      * intros d Hd. apply Hlh. destruct label; [done | exact Hd].
      * intros d Hd. apply Hpl.
        now rewrite last_app_cons, last_cons_cons in Hd.
    + rewrite replace_prefix by done. rewrite app_nil_l.
      rewrite replace_absent; [| done |].
      * apply (strip_after_blank [space] (c :: p));
          [repeat constructor | done].
      * intros before after Heq. destruct before as [|d before].
        -- destruct label as [|d label]; [done|]. injection Heq as <- _.
           now specialize (Hlh _ eq_refl).
        -- injection Heq as _ Heq. now apply (Hocc before after).
Qed.

Lemma parse_labelled_line parts key label p :
  (key, label) ∈ labels ->
  tight p -> occurs_not label p ->
  parse_line parts (label ++ space :: p) = <[key := p]> parts.
Proof.
  intros Hin Hp Hocc.
  assert (Hlabel : label <> [] /\ tight label).
  { unfold labels in Hin.
    repeat (apply elem_of_cons in Hin as [[= _ ->]|Hin];
            [split; [done|]; split; intros c [= <-]; reflexivity|]).
    now apply elem_of_nil in Hin. }
  destruct Hlabel as [Hne Htight].
  destruct (labelled_line label p Hne Htight Hp Hocc) as (tail & Hs & Hv).
  rewrite parse_line_label.
  rewrite (proj2 (line_label_Some (label ++ space :: p) key label)).
  - now rewrite Hs, Hv.
  - split; [done|]. rewrite Hs. apply startswith_app.
Qed.

End Parse.

(** X14. Whatever the model answers, the dictionary read from it has no
    key besides [hook], [fact], [explanation] and [cta], and none of its
    values starts or ends with whitespace. *)
Theorem parse_script_content_parts (script_content key value : str) :
  _parse_script_content script_content !! key = Some value ->
  key ∈ required_parts /\ Py.strip value = value.
Proof.
  unfold _parse_script_content.
  apply (parse_lines_parts _ ∅). intros k v. now rewrite lookup_empty.
Qed.

Lemma parse_script_content_parts_witness :
  fact_key ∈ required_parts
  /\ Py.strip (str_of "Sharks never sleep") = str_of "Sharks never sleep".
Proof.
  apply (parse_script_content_parts
           (str_of "intro
FACT:   Sharks never sleep  
bye") fact_key).
  vm_compute. reflexivity.
Defined.

(** X15. A part is read exactly when some line of the answer, once
    trimmed, starts with the label of that part; so the four parts
    [generate_script] requires are all there exactly when each of the four
    labels opens a line. *)
Theorem parse_script_content_keys (script_content key : str) :
  is_Some (_parse_script_content script_content !! key)
  <-> exists label line,
        (key, label) ∈ labels
        /\ line ∈ Py.split_on newline script_content
        /\ PyStr.startswith (Py.strip line) label = true.
Proof.
  unfold _parse_script_content. rewrite parse_lines_key.
  rewrite lookup_empty. split; [|now right].
  intros [H|H]; [now destruct H | exact H].
Qed.

Lemma parse_script_text_parts (h f e c : str) :
  Forall (fun p => tight p /\ newline ∉ p) [h; f; e; c] ->
  occurs_not HOOK h -> occurs_not FACT f ->
  occurs_not EXPLANATION e -> occurs_not CTA c ->
  _parse_script_content (script_text h f e c)
  = <[cta := c]> (<[explanation := e]> (<[fact_key := f]> (<[hook := h]> ∅))).
Proof.
  intros Hall Hh Hf He Hc.
  apply Forall_cons in Hall as [[Hth Hnh] Hall].
  apply Forall_cons in Hall as [[Htf Hnf] Hall].
  apply Forall_cons in Hall as [[Hte Hne] Hall].
  apply Forall_cons in Hall as [[Htc Hnc] _].
  unfold _parse_script_content, script_text, Py.split_on.
  rewrite split_on_join.
  - cbn [fold_left app].
    rewrite (parse_labelled_line _ hook HOOK h), (parse_labelled_line _ fact_key FACT f),
      (parse_labelled_line _ explanation EXPLANATION e),
      (parse_labelled_line _ cta CTA c); try done;
      unfold labels;
      repeat first [apply list_elem_of_here | apply list_elem_of_further].
  - repeat (apply Forall_cons; split;
            [intros H; apply elem_of_app in H as [H|H];
             [vm_compute in H; 
              repeat (apply elem_of_cons in H as [H|H]; [discriminate|]);
              now apply elem_of_nil in H
             |apply elem_of_cons in H as [H|H]; [discriminate | done]]|]).
    constructor.
  - intros H; apply elem_of_app in H as [H|H];
      [vm_compute in H;
       repeat (apply elem_of_cons in H as [H|H]; [discriminate|]);
       now apply elem_of_nil in H
      |apply elem_of_cons in H as [H|H]; [discriminate | done]].
Qed.

(** X16. An answer in the format the prompt asks for is read back part by
    part: when the four texts are trimmed, hold no line break and do not
    contain their own label, the dictionary maps the four keys to the
    four texts. *)
Theorem parse_script_text (h f e c : str) :
  Forall (fun p => tight p /\ newline ∉ p) [h; f; e; c] ->
  occurs_not HOOK h -> occurs_not FACT f ->
  occurs_not EXPLANATION e -> occurs_not CTA c ->
  _parse_script_content (script_text h f e c)
  = <[cta := c]> (<[explanation := e]> (<[fact_key := f]> (<[hook := h]> ∅))).
Proof. apply parse_script_text_parts. Qed.

Lemma occurs_not_head (c : ascii) (label p : str) :
  c ∉ p -> occurs_not (c :: label) p.
Proof.
  intros Hc before after ->. apply Hc.
  apply elem_of_app. right. left.
Qed.

Lemma parse_script_text_witness :
  _parse_script_content
    (script_text (sd_hook sample_script) (sd_fact sample_script)
       (sd_explanation sample_script) (sd_cta sample_script))
  = <[cta := sd_cta sample_script]>
      (<[explanation := sd_explanation sample_script]>
         (<[fact_key := sd_fact sample_script]>
            (<[hook := sd_hook sample_script]> ∅))).
Proof.
  apply (parse_script_text (sd_hook sample_script) (sd_fact sample_script)
           (sd_explanation sample_script) (sd_cta sample_script)).
  - repeat (apply Forall_cons; split;
            [split;
             [split; intros c H; vm_compute in H; injection H as <-;
              reflexivity
             |apply (bool_decide_unpack _); vm_compute; exact I]|]).
    constructor.
  - apply occurs_not_head, (bool_decide_unpack _). vm_compute. exact I.
  - apply occurs_not_head, (bool_decide_unpack _). vm_compute. exact I.
  - apply occurs_not_head, (bool_decide_unpack _). vm_compute. exact I.
  - apply occurs_not_head, (bool_decide_unpack _). vm_compute. exact I.
Defined.
(** ** Generating a script *)

Section History.

Implicit Types (g : Generator) (topic f : str) (facts : list str).





End History.

Section Generate.

Variable api : nat -> ApiResponse.
Variable write : nat -> bool.
Variable clock : nat -> str.

Implicit Types (g : Generator) (topic h f e c : str) (sd : ScriptData)
  (attempt remaining read i j : nat) (out : Outcome).

(** One turn of the loop, by the worth of the answer and the outcome of
    the write. *)
Lemma attempt_loop_step g topic attempt remaining read :
  attempt_loop api write clock g topic attempt (S remaining) read
  = match accepted g topic (api attempt) with
    | Some (h, f, e, c) =>
        let sd := make_script_data g topic h f e c (clock read) in
        let g1 :=
          after (_save_script_to_database (write attempt)
                   (clock (read + 1)%nat) (clock (read + 2)%nat)
                   g sd f topic) in
        if write attempt then Returned sd g1
        else if bool_decide (attempt = MAX_RETRIES - 1)%nat
        then Raised AttemptFailed g1
        else attempt_loop api write clock g1 topic (S attempt) remaining
               (read + 3)%nat
    | None =>
        attempt_loop api write clock g topic (S attempt) remaining read
    end
  \/ (accepted g topic (api attempt) = None
      /\ attempt = (MAX_RETRIES - 1)%nat
      /\ attempt_loop api write clock g topic attempt (S remaining) read
         = Raised AttemptFailed g).
Proof.
  cbn [attempt_loop]. unfold accepted.
  destruct (api attempt) as [| |content].
  - case_bool_decide; [right | left]; done.
  - case_bool_decide; [right | left]; done.
  - destruct (_parse_script_content (Py.strip content) !! hook) as [h|];
      [|now left].
    destruct (_parse_script_content (Py.strip content) !! fact_key) as [f|];
      [|now left].
    destruct (_parse_script_content (Py.strip content) !! explanation)
      as [e|]; [|now left].
    destruct (_parse_script_content (Py.strip content) !! cta) as [c|];
      [|now left].
    cbn [mbind option_bind].
    destruct (gen_is_duplicate g f topic) as [[|]|]; [now left| |].
    + left. unfold _save_script_to_database, save_facts.
      now destruct (write attempt).
    + case_bool_decide; [right | left]; done.
Qed.


(** The first answer worth accepting is the one returned, when the
    history file can be written at that attempt. *)
Lemma attempt_loop_first g topic h f e c i remaining : forall attempt read,
  (attempt + remaining <= MAX_RETRIES)%nat ->
  (attempt <= i < attempt + remaining)%nat ->
  accepted g topic (api i) = Some (h, f, e, c) ->
  (forall j, (attempt <= j < i)%nat -> accepted g topic (api j) = None) ->
  write i = true ->
  attempt_loop api write clock g topic attempt remaining read
  = Returned (make_script_data g topic h f e c (clock read))
      (after (_save_script_to_database true (clock (read + 1)%nat)
                (clock (read + 2)%nat) g
                (make_script_data g topic h f e c (clock read)) f topic)).
Proof.
  induction remaining as [|remaining IH];
    intros attempt read Hmax Hi Hacc Hnone Hw; [lia|].
  destruct (attempt_loop_step g topic attempt remaining read)
    as [-> | (Hn & Hlast & _)].
  2:{ destruct (decide (attempt = i)) as [->|Hne]; [congruence|].
      unfold MAX_RETRIES in *. lia. }
  destruct (decide (attempt = i)) as [->|Hne].
  - rewrite Hacc. cbn zeta. now rewrite Hw.
  - rewrite Hnone by lia. apply IH; [lia | lia | done | | done].
    intros j Hj. apply Hnone. lia.
Qed.

Lemma attempt_loop_none g topic remaining : forall attempt read,
  (forall j, (attempt <= j < attempt + remaining)%nat ->
     accepted g topic (api j) = None) ->
  exists why,
    attempt_loop api write clock g topic attempt remaining read
    = Raised why g
    /\ why <> NoTopic.
Proof.
  induction remaining as [|remaining IH]; intros attempt read Hnone.
  - now exists NoUniqueScript.
  - destruct (attempt_loop_step g topic attempt remaining read)
      as [-> | (_ & _ & ->)]; [|now exists AttemptFailed].
    rewrite Hnone by lia. apply IH. intros j Hj. apply Hnone. lia.
Qed.


Lemma generate_script_run_topic (choice : list str -> str) g topic :
  exists g0,
    generate_script choice api write clock g (Some topic)
    = attempt_loop api write clock g0 topic 0 MAX_RETRIES 0
    /\ gen_facts g0 = gen_facts g /\ gen_model g0 = gen_model g.
Proof.
  unfold generate_script. case_bool_decide.
  - now exists g.
  - eexists. split; [reflexivity|]. done.
Qed.

Lemma gen_is_duplicate_facts g g' new_fact topic :
  gen_facts g' = gen_facts g ->
  gen_is_duplicate g' new_fact topic = gen_is_duplicate g new_fact topic.
Proof. unfold gen_is_duplicate. now intros ->. Qed.

Lemma accepted_facts g g' topic response :
  gen_facts g' = gen_facts g ->
  accepted g' topic response = accepted g topic response.
Proof.
  intros Hf. unfold accepted. destruct response; [done..|].
  destruct (_ !! hook); [|done]. destruct (_ !! fact_key); [|done].
  destruct (_ !! explanation); [|done]. destruct (_ !! cta); [|done].
  cbn [mbind option_bind]. now rewrite (gen_is_duplicate_facts g g').
Qed.



End Generate.





(** With a history file that cannot be written, an answer that would have
    been accepted is stored in memory, the failed write is passed over,
    the same answer is then refused as a duplicate of itself, and the call
    raises with the fact in the history. *)
Example generate_script_unwritable :
  exists g',
    generate_script first_topic steady_api unwritable sample_clock
      sample_generator (Some (str_of "Animals"))
    = Raised NoUniqueScript g'
    /\ get_existing_facts (gen_facts g') (str_of "Animals")
       = get_existing_facts (gen_facts sample_generator) (str_of "Animals")
         ++ [sd_fact sample_script].
Proof. eexists. split; vm_compute; reflexivity. Qed.

(** X19. With a topic given, [generate_script] returns the script of the
    first answer, among the first [MAX_RETRIES] (3), that has text, holds
    the four parts and whose fact is no duplicate, provided the history
    file can be written at that attempt; failed requests, answers without
    choices, incomplete answers and duplicates before it are all passed
    over. *)
Theorem generate_script_first_accepted
    (choice : list str -> str) (api : nat -> ApiResponse)
    (write : nat -> bool) (clock : nat -> str) (g : Generator)
    (topic h f e c : str) (i : nat) :
  (i < MAX_RETRIES)%nat ->
  accepted g topic (api i) = Some (h, f, e, c) ->
  (forall j, (j < i)%nat -> accepted g topic (api j) = None) ->
  write i = true ->
  exists g',
    generate_script choice api write clock g (Some topic)
    = Returned (make_script_data g topic h f e c (clock 0%nat)) g'.
Proof.
  intros Hi Hacc Hnone Hw.
  destruct (generate_script_run_topic api write clock choice g topic)
    as (g0 & Hrun & Hfacts & Hmodel).
  rewrite Hrun.
  rewrite (attempt_loop_first api write clock g0 topic h f e c i
             MAX_RETRIES 0 0);
    [| lia | lia | now rewrite (accepted_facts g g0) | | exact Hw].
  - eexists. f_equal. unfold make_script_data. now rewrite Hmodel.
  - intros j Hj. rewrite (accepted_facts g g0) by done. apply Hnone. lia.
Qed.

Lemma generate_script_first_accepted_witness :
  exists g',
    generate_script first_topic flaky_api writable sample_clock
      sample_generator (Some (str_of "Animals"))
    = Returned
        (make_script_data sample_generator (str_of "Animals")
           (sd_hook sample_script) (sd_fact sample_script)
           (sd_explanation sample_script) (sd_cta sample_script)
           (sample_clock 0%nat)) g'.
Proof.
  apply (generate_script_first_accepted first_topic flaky_api writable
           sample_clock sample_generator (str_of "Animals") _ _ _ _ 2).
  - unfold MAX_RETRIES. lia.
  - vm_compute. reflexivity.
  - intros j Hj. destruct j as [|[|j]]; [vm_compute; reflexivity..|lia].
  - reflexivity.
Defined.

(** X20. Only the first [MAX_RETRIES] (3) answers count: when none of them
    is acceptable, [generate_script] raises, whatever a fourth request
    would have answered and whether or not the history file can be
    written. *)
Theorem generate_script_exhausted
    (choice : list str -> str) (api : nat -> ApiResponse)
    (write : nat -> bool) (clock : nat -> str) (g : Generator)
    (topic : str) :
  (forall j, (j < MAX_RETRIES)%nat -> accepted g topic (api j) = None) ->
  exists why g',
    generate_script choice api write clock g (Some topic) = Raised why g'
    /\ why <> NoTopic.
Proof.
  intros Hnone.
  destruct (generate_script_run_topic api write clock choice g topic)
    as (g0 & Hrun & Hfacts & _).
  rewrite Hrun.
  destruct (attempt_loop_none api write clock g0 topic MAX_RETRIES 0 0)
    as (why & Hr & Hwhy).
  - intros j Hj. rewrite (accepted_facts g g0) by done. apply Hnone. lia.
  - now exists why, g0.
Qed.

Lemma generate_script_exhausted_witness :
  exists why g',
    generate_script first_topic dead_api unwritable sample_clock
      sample_generator (Some (str_of "Animals")) = Raised why g'
    /\ why <> NoTopic.
Proof.
  apply (generate_script_exhausted first_topic dead_api unwritable
           sample_clock sample_generator (str_of "Animals")).
  intros j Hj. reflexivity.
Defined.

(** ** The configuration *)

Section Config.

Context {V : Type} (text : str -> V) (null : V).

Implicit Types (api_key : V) (user_config : gmap str V) (key : str).

Lemma default_config_keys api_key key :
  is_Some (default_config text null api_key !! key) <-> key ∈ config_keys.
Proof.
  unfold default_config, config_keys. split.
  - intros [v Hv]. apply elem_of_list_to_map_2 in Hv.
    repeat (apply elem_of_cons in Hv as [[= -> _]|Hv];
            [repeat first [apply list_elem_of_here
                          | apply list_elem_of_further]|]).
    now apply elem_of_nil in Hv.
  - intros Hin. simpl in Hin.
    repeat (apply elem_of_cons in Hin as [->|Hin]; [vm_compute; eauto|]).
    now apply elem_of_nil in Hin.
Qed.

Lemma default_config_no_comment api_key key :
  PyStr.startswith key (str_of "_") = true ->
  default_config text null api_key !! key = None.
Proof.
  intros Hs. apply eq_None_not_Some. rewrite default_config_keys.
  intros Hin. unfold config_keys in Hin. simpl in Hin.
  repeat (apply elem_of_cons in Hin as [->|Hin]; [discriminate|]).
  now apply elem_of_nil in Hin.
Qed.

End Config.

(** X21. What [load_config] returns, key by key: a key starting with an
    underscore is never in the configuration; any other key of the file
    has the file's value; a key the file does not give has its default;
    and the seven default keys are always there, with or without a
    readable file. *)
Theorem load_config_lookup {V : Type} (text : str -> V) (null api_key : V)
    (file : option (gmap str V)) (key : str) :
  let config := load_config text null api_key file in
  (PyStr.startswith key (str_of "_") = true -> config !! key = None)
  /\ (forall user_config value,
        file = Some user_config ->
        PyStr.startswith key (str_of "_") = false ->
        user_config !! key = Some value -> config !! key = Some value)
  /\ (forall user_config,
        file = Some user_config -> user_config !! key = None ->
        config !! key = default_config text null api_key !! key)
  /\ (file = None -> config = default_config text null api_key)
  /\ (key ∈ config_keys -> is_Some (config !! key)).
Proof.
  cbn zeta. unfold load_config, without_comments.
  split; [|split; [|split; [|split]]].
  - intros Hs. destruct file as [user_config|].
    + apply lookup_union_None. split.
      * apply map_lookup_filter_None. right. intros v _ HP.
        change (PyStr.startswith key (str_of "_") = false) in HP. congruence.
      * now apply default_config_no_comment.
    + now apply default_config_no_comment.
  - intros user_config value -> Hs Hv.
    apply lookup_union_Some_l. apply map_lookup_filter_Some. done.
  - intros user_config -> Hn. rewrite lookup_union_r; [done|].
    apply map_lookup_filter_None. now left.
  - now intros ->.
  - intros Hin. apply (default_config_keys text null api_key) in Hin.
    destruct file as [user_config|]; [|done].
    destruct Hin as [v Hv]. apply lookup_union_is_Some. right. eauto.
Qed.

Lemma load_config_lookup_witness :
  load_config Some None None (Some sample_config_file) !! str_of "_comment"
  = None
  /\ load_config Some None None (Some sample_config_file) !! str_of "voice"
     = Some (Some (str_of "en-GB-RyanNeural"))
  /\ load_config Some None None (Some sample_config_file) !! str_of "topic"
     = default_config Some None None !! str_of "topic"
  /\ load_config Some None None None = default_config Some None None
  /\ is_Some (load_config Some None None (Some sample_config_file)
              !! str_of "input_folder").
Proof.
  split; [|split; [|split; [|split]]].
  - apply (proj1 (load_config_lookup Some None None (Some sample_config_file)
                    (str_of "_comment"))).
    reflexivity.
  - apply (proj1 (proj2 (load_config_lookup Some None None
                           (Some sample_config_file) (str_of "voice")))
             sample_config_file); reflexivity.
  - apply (proj1 (proj2 (proj2 (load_config_lookup Some None None
                                  (Some sample_config_file) (str_of "topic"))))
             sample_config_file); reflexivity.
  - apply (proj1 (proj2 (proj2 (proj2 (load_config_lookup Some None None None
                                         (str_of "topic")))))).
    reflexivity.
  - apply (proj2 (proj2 (proj2 (proj2 (load_config_lookup Some None None
                                         (Some sample_config_file)
                                         (str_of "input_folder")))))).
    vm_compute. repeat first [apply list_elem_of_here
                             | apply list_elem_of_further].
Defined.
